(** * Multiplayer chess backend: session coordination (index.js)

    A shallow embedding of the socket handlers of [index.js]: the two
    registries [rooms] and [games], the handlers for [createRoom],
    [joinRoom], [move], [gameReset] and [disconnect], the helper
    [cleanupRoom] and the periodic sweep, together with what each handler
    emits.  The chess library (chess.js) and the socket transport are
    collaborators of the program: the first is a parameter ([RulesEngine]),
    the second is reduced to the record of [socket.join] calls and to the
    audience of each emission. *)

From Stdlib Require Import List String Ascii Bool NArith ZArith Lia.
Import ListNotations.
Open Scope string_scope.

Set Implicit Arguments.

(** ** JavaScript [Map] with string keys

    [rooms.entries()] is traversed in insertion order by the disconnect
    handler and by the sweep, so a [Map] is an association list kept in
    insertion order: [set] on a present key replaces the value where it is,
    [set] on a new key appends. *)

Module JsMap.

Definition t (V : Type) : Type := list (string * V).

Definition empty {V : Type} : t V := [].

Fixpoint get {V : Type} (k : string) (m : t V) : option V :=
  match m with
  | [] => None
  | (k', v) :: m' => if String.eqb k k' then Some v else get k m'
  end.

Fixpoint set {V : Type} (k : string) (v : V) (m : t V) : t V :=
  match m with
  | [] => [(k, v)]
  | (k', v') :: m' =>
      if String.eqb k k' then (k, v) :: m' else (k', v') :: set k v m'
  end.

Fixpoint delete {V : Type} (k : string) (m : t V) : t V :=
  match m with
  | [] => []
  | (k', v') :: m' =>
      if String.eqb k k' then delete k m' else (k', v') :: delete k m'
  end.

End JsMap.

(** ** Data model *)

Definition SocketId := string.
Definition RoomId := string.

(** [new Date()] in milliseconds; [toISOString] and [new Date(iso)] are
    inverse on it. *)
Definition Timestamp := Z.

Inductive Color : Type := white | black.

Definition Color_eqb (a b : Color) : bool :=
  match a, b with
  | white, white | black, black => true
  | _, _ => false
  end.

Definition colorName (c : Color) : string :=
  match c with white => "white" | black => "black" end.

Definition flipColor (c : Color) : Color :=
  match c with white => black | black => white end.

(** The value of [chess.turn()]: ['w'] or ['b']. *)
Inductive Side : Type := side_w | side_b.

Inductive RoomStatus : Type := status_waiting | status_ready.

Inductive GameState : Type := waiting | active | finished.

Record Player : Type := mkPlayer {
  socketId : SocketId;
  username : string;
  color : Color;
  ready : bool
}.

Record Room : Type := mkRoom {
  roomId : RoomId;
  players : list Player;
  status : RoomStatus;
  created : Timestamp;
  lastActivity : Timestamp
}.

(** ** Room identifiers

    [uuidV4().substring(0, 8).toUpperCase()]; the uuid drawn is an input of
    the handler.  A uuid is ASCII, where [toUpperCase] moves [a-z] to
    [A-Z] and nothing else. *)

Definition upper_ascii (c : ascii) : ascii :=
  let n := N_of_ascii c in
  if (97 <=? n)%N && (n <=? 122)%N then ascii_of_N (n - 32) else c.

Fixpoint toUpperCase (s : string) : string :=
  match s with
  | EmptyString => EmptyString
  | String c s' => String (upper_ascii c) (toUpperCase s')
  end.

Definition generateRoomId (uuid : string) : RoomId :=
  toUpperCase (substring 0 8 uuid).

(** ** The rules engine (chess.js)

    [engine_move] is [chess.move(m)]: it returns the move made, or a falsy
    value, or it throws; only an accepted move changes the board. *)

Inductive MoveAttempt (C R : Type) : Type :=
| Accepted (c' : C) (result : R)
| Rejected
| Threw.

Arguments Rejected {C R}.
Arguments Threw {C R}.

Record RulesEngine : Type := mkEngine {
  Chess : Type;
  MoveInput : Type;
  MoveResult : Type;
  newChess : Chess;
  turn : Chess -> Side;
  engine_move : Chess -> MoveInput -> MoveAttempt Chess MoveResult;
  fen : Chess -> string;
  isGameOver : Chess -> bool;
  isCheckmate : Chess -> bool;
  isDraw : Chess -> bool;
  reset : Chess -> Chess
}.

(** What the program relies on from chess.js: a fresh board has white to
    move, [reset] gives the fresh board, a move made passes the turn, and a
    checkmate is a finished game. *)
Record EngineLaws (E : RulesEngine) : Prop := mkLaws {
  newChess_turn : turn E (newChess E) = side_w;
  reset_initial : forall c, reset E c = newChess E;
  move_passes_turn : forall c m c' r,
    engine_move E c m = Accepted c' r ->
    turn E c' = match turn E c with side_w => side_b | side_b => side_w end;
  checkmate_is_over : forall c, isCheckmate E c = true -> isGameOver E c = true
}.

(** ** Sessions, payloads and emissions *)

Section Server.

Variable E : RulesEngine.

Record HistoryEntry : Type := mkEntry {
  h_move : MoveResult E;
  h_fen : string;
  h_timestamp : Timestamp;
  h_player : string
}.

(** [moveCount] is a JavaScript number that only [moveCount++] and
    [moveCount = 0] write: a natural number, the increment being exact
    below 2^53. *)
Record Game : Type := mkGame {
  chess : Chess E;
  gameState : GameState;
  currentTurn : Color;
  moveCount : N;
  history : list HistoryEntry
}.

Inductive GameOverType : Type := checkmate | draw.

Record GameOverData : Type := mkGameOver {
  go_type : GameOverType;
  go_winner : option Color;
  go_message : string
}.

(** [moveData] and [resetData]; the latter has no [lastMove]. *)
Record GameUpdate : Type := mkUpdate {
  u_fen : string;
  u_currentTurn : Color;
  u_moveCount : N;
  u_gameOver : option GameOverData;
  u_lastMove : option (MoveResult E)
}.

(** The payload of the [move] event, [{ move, room }]. *)
Record MoveData : Type := mkMoveData {
  md_move : MoveInput E;
  md_room : RoomId
}.

Inductive Payload : Type :=
| PRoomId (r : RoomId)
| PFailure (message : string)
| PRoom (r : Room)
| PError (message : string)
| PMove (m : MoveInput E)
| PGameUpdate (d : GameUpdate)
| PPlayerDisconnected (player : Player) (remainingPlayers : nat)
| PSignal
| PPong.

(** [Ack s p] is [callback(p)] on the socket [s]; [SocketEmit s ev p] is
    [socket.emit(ev, p)]; [SocketTo s r ev p] is
    [socket.to(r).emit(ev, p)] and [IoTo r ev p] is [io.to(r).emit(ev, p)]. *)
Inductive Emission : Type :=
| Ack (s : SocketId) (p : Payload)
| SocketEmit (s : SocketId) (ev : string) (p : Payload)
| SocketTo (s : SocketId) (r : RoomId) (ev : string) (p : Payload)
| IoTo (r : RoomId) (ev : string) (p : Payload).

(** The process memory: the two registries, [socket.data.username] of each
    socket, and the members of the transport's groups: [socket.join] adds
    a pair, the handlers never call [socket.leave], and the transport
    takes a socket out of every group when its connection closes
    ([leave_all] below). *)
Record Server : Type := mkServer {
  rooms : JsMap.t Room;
  games : JsMap.t Game;
  socketData : JsMap.t string;
  joined : list (SocketId * RoomId)
}.

Definition initial : Server := mkServer JsMap.empty JsMap.empty JsMap.empty [].

Definition with_rooms (st : Server) (r : JsMap.t Room) : Server :=
  mkServer r (games st) (socketData st) (joined st).

Definition with_games (st : Server) (g : JsMap.t Game) : Server :=
  mkServer (rooms st) g (socketData st) (joined st).

(** [socket.join(roomId)] *)
Definition socket_join (s : SocketId) (r : RoomId) (st : Server) : Server :=
  mkServer (rooms st) (games st) (socketData st) ((s, r) :: joined st).

(** *** Audience of an emission *)

Definition members (st : Server) (r : RoomId) : list SocketId :=
  map fst (filter (fun sr => String.eqb (snd sr) r) (joined st)).

Definition recipients (st : Server) (e : Emission) : list SocketId :=
  match e with
  | Ack s _ => [s]
  | SocketEmit s _ _ => [s]
  | SocketTo s r _ _ => filter (fun s' => negb (String.eqb s' s)) (members st r)
  | IoTo r _ _ => members st r
  end.

(** *** Control flow of a handler

    The body of a [try] block either runs to its end or throws; both
    leave a state and the emissions made so far.  A handler as a whole
    either completes or lets an exception escape. *)

Inductive Try : Type :=
| Done (st : Server) (out : list Emission)
| Thrown (st : Server) (out : list Emission).

Inductive Completion : Type :=
| Normal (st : Server) (out : list Emission)
| Uncaught.

Definition try_catch (body : Try) (handler : Server -> list Emission -> Completion)
  : Completion :=
  match body with
  | Done st out => Normal st out
  | Thrown st out => handler st out
  end.

(** [callback(p)] where the client may not have passed a function. *)
Definition callback (ack : bool) (s : SocketId) (p : Payload)
           (st : Server) (out : list Emission) : Try :=
  if ack then Done st (out ++ [Ack s p]) else Thrown st out.

Definition callback_in_catch (ack : bool) (s : SocketId) (p : Payload)
           (st : Server) (out : list Emission) : Completion :=
  if ack then Normal st (out ++ [Ack s p]) else Uncaught.

(** The statements after one that may throw. *)
Definition bind (t : Try) (k : Server -> list Emission -> Try) : Try :=
  match t with
  | Done st out => k st out
  | Thrown st out => Thrown st out
  end.

(** [socket.data.username || 'Anonymous'] *)
Definition username_or_anonymous (st : Server) (s : SocketId) : string :=
  match JsMap.get s (socketData st) with
  | Some name => if String.eqb name "" then "Anonymous" else name
  | None => "Anonymous"
  end.

Definition turnColor (c : Chess E) : Color :=
  match turn E c with side_w => white | side_b => black end.

(** [room.lastActivity = new Date().toISOString()] *)
Definition touch (room : Room) (now : Timestamp) : Room :=
  mkRoom (roomId room) (players room) (status room) (created room) now.

(** [room.players.push(newPlayer); room.status = 'ready';
    room.lastActivity = ...] *)
Definition push_player (room : Room) (newPlayer : Player) (now : Timestamp) : Room :=
  mkRoom (roomId room) (players room ++ [newPlayer]) status_ready
         (created room) now.

Definition set_gameState (game : Game) (gs : GameState) : Game :=
  mkGame (chess game) gs (currentTurn game) (moveCount game) (history game).

(** ** [cleanupRoom] *)

Definition cleanupRoom (roomId : RoomId) (st : Server) : Server :=
  match JsMap.get roomId (rooms st) with
  | Some room =>
      if Nat.eqb (List.length (players room)) 0
      then mkServer (JsMap.delete roomId (rooms st))
                    (JsMap.delete roomId (games st))
                    (socketData st) (joined st)
      else st
  | None => st
  end.

(** ** [socket.on('username', ...)]

    The payload is a string, as the clients send it. *)

Definition on_username (s : SocketId) (name : string) (st : Server) : Completion :=
  Normal (mkServer (rooms st) (games st)
                   (JsMap.set s name (socketData st)) (joined st)) [].

(** ** [socket.on('createRoom', ...)]

    [ack] tells whether the client passed a callback; [created] and
    [lastActivity] are read from the clock at the same instant [now]. *)

Definition on_createRoom (s : SocketId) (ack : bool) (uuid : string)
           (now : Timestamp) (st : Server) : Completion :=
  try_catch
    (let roomId := generateRoomId uuid in
     let room :=
       mkRoom roomId [mkPlayer s (username_or_anonymous st s) white false]
              status_waiting now now in
     let st := with_games st
                 (JsMap.set roomId (mkGame (newChess E) waiting white 0%N [])
                            (games st)) in
     let st := with_rooms st (JsMap.set roomId room (rooms st)) in
     let st := socket_join s roomId st in
     callback ack s (PRoomId roomId) st [])
    (callback_in_catch ack s (PFailure "Failed to create room")).

(** [const game = games.get(roomId); if (game) { game.gameState = 'active' }] *)
Definition activate_game (roomId : RoomId) (st : Server) : Server :=
  match JsMap.get roomId (games st) with
  | Some game =>
      with_games st (JsMap.set roomId (set_gameState game active) (games st))
  | None => st
  end.

(** ** [socket.on('joinRoom', ...)]

    [args] is [None] when the client sent no object to destructure. *)

Definition on_joinRoom (s : SocketId) (args : option RoomId) (ack : bool)
           (now : Timestamp) (st : Server) : Completion :=
  try_catch
    (match args with
     | None => Thrown st []
     | Some roomId =>
         match JsMap.get roomId (rooms st) with
         | None => callback ack s (PFailure "Room not found") st []
         | Some room =>
             if Nat.leb 2 (List.length (players room))
             then callback ack s (PFailure "Room is full") st []
             else if existsb (fun p => String.eqb (socketId p) s) (players room)
             then callback ack s (PFailure "Already in this room") st []
             else
               let newPlayer :=
                 mkPlayer s (username_or_anonymous st s) black false in
               let room := push_player room newPlayer now in
               let st := with_rooms st (JsMap.set roomId room (rooms st)) in
               let st := activate_game roomId st in
               let st := socket_join s roomId st in
               bind (callback ack s (PRoom room) st [])
                    (fun st out =>
                       Done st (out ++ [SocketTo s roomId "opponentJoined" (PRoom room)]))
         end
     end)
    (callback_in_catch ack s (PFailure "Failed to join room")).

(** ** [socket.on('move', ...)] *)

Definition error_to (s : SocketId) (message : string) : Emission :=
  SocketEmit s "error" (PError message).

(** The game-over block: [gameOverData] after the move. *)
Definition gameOverData_of (c : Chess E) : option GameOverData :=
  if isGameOver E c then
    if isCheckmate E c then
      let winner := match turn E c with side_w => black | side_b => white end in
      Some (mkGameOver checkmate (Some winner)
              ("Checkmate! " ++ colorName winner ++ " wins!"))
    else if isDraw E c then
      Some (mkGameOver draw None "Game ended in a draw")
    else None
  else None.

(** The mutation of [game] once [chess.move] has returned [result] and
    left the board [c']. *)
Definition record_move (game : Game) (c' : Chess E) (result : MoveResult E)
           (player : Player) (now : Timestamp) : Game :=
  mkGame c'
         (if isGameOver E c' then finished else gameState game)
         (turnColor c')
         (moveCount game + 1)%N
         (history game ++ [mkEntry result (fen E c') now (username player)]).

Definition moveData_of (game : Game) (result : MoveResult E) : GameUpdate :=
  mkUpdate (fen E (chess game)) (currentTurn game) (moveCount game)
           (gameOverData_of (chess game)) (Some result).

Definition on_move (s : SocketId) (data : option MoveData)
           (now : Timestamp) (st : Server) : Completion :=
  try_catch
    (match data with
     | None => Thrown st []
     | Some d =>
         let move := md_move d in
         let roomId := md_room d in
         match JsMap.get roomId (rooms st), JsMap.get roomId (games st) with
         | Some room, Some game =>
             match find (fun p => String.eqb (socketId p) s) (players room) with
             | None => Done st [error_to s "Player not found in room"]
             | Some player =>
                 let current := turnColor (chess game) in
                 if negb (Color_eqb (color player) current)
                 then Done st [error_to s "Not your turn"]
                 else
                   match engine_move E (chess game) move with
                   | Threw => Thrown st []
                   | Rejected => Done st [error_to s "Invalid move"]
                   | Accepted c' result =>
                       let game := record_move game c' result player now in
                       let room := touch room now in
                       let st :=
                         mkServer (JsMap.set roomId room (rooms st))
                                  (JsMap.set roomId game (games st))
                                  (socketData st) (joined st) in
                       Done st [SocketTo s roomId "move" (PMove move);
                                IoTo roomId "gameUpdate"
                                     (PGameUpdate (moveData_of game result))]
                   end
             end
         | _, _ => Done st [error_to s "Room or game not found"]
         end
     end)
    (fun st out => Normal st (out ++ [error_to s "Failed to process move"])).

(** ** [socket.on('gameReset', ...)] *)

Definition reset_game (game : Game) : Game :=
  mkGame (reset E (chess game)) active white 0%N [].

Definition on_gameReset (data : option RoomId) (now : Timestamp) (st : Server)
  : Completion :=
  try_catch
    (match data with
     | None => Thrown st []
     | Some roomId =>
         match JsMap.get roomId (rooms st), JsMap.get roomId (games st) with
         | Some room, Some game =>
             let game := reset_game game in
             let room := touch room now in
             let st :=
               mkServer (JsMap.set roomId room (rooms st))
                        (JsMap.set roomId game (games st))
                        (socketData st) (joined st) in
             Done st [IoTo roomId "gameReset" PSignal;
                      IoTo roomId "gameUpdate"
                           (PGameUpdate
                              (mkUpdate (fen E (chess game)) white 0%N None None))]
         | _, _ => Done st []
         end
     end)
    (fun st out => Normal st out).

(** ** [socket.on('disconnect', ...)] *)

Fixpoint findIndex {A : Type} (f : A -> bool) (l : list A) : option nat :=
  match l with
  | [] => None
  | x :: l' => if f x then Some 0 else option_map S (findIndex f l')
  end.

(** [l.splice(i, 1)] *)
Definition splice1 {A : Type} (i : nat) (l : list A) : list A :=
  firstn i l ++ skipn (S i) l.

(** The loop over [rooms.entries()] up to its [break]: the first entry
    whose room lists the socket, with the index found. *)
Fixpoint first_room_of (s : SocketId) (entries : list (RoomId * Room))
  : option (RoomId * Room * nat) :=
  match entries with
  | [] => None
  | (roomId, room) :: rest =>
      match findIndex (fun p => String.eqb (socketId p) s) (players room) with
      | Some playerIndex => Some (roomId, room, playerIndex)
      | None => first_room_of s rest
      end
  end.

Definition remove_player (room : Room) (playerIndex : nat) (now : Timestamp) : Room :=
  mkRoom (roomId room) (splice1 playerIndex (players room)) (status room)
         (created room) now.

Definition on_disconnect (s : SocketId) (now : Timestamp) (st : Server) : Completion :=
  match first_room_of s (rooms st) with
  | None => Normal st []
  | Some (roomId, room, playerIndex) =>
      match nth_error (players room) playerIndex with
      | None => Uncaught
      | Some disconnectedPlayer =>
          let room := remove_player room playerIndex now in
          let st := with_rooms st (JsMap.set roomId room (rooms st)) in
          let out :=
            if Nat.ltb 0 (List.length (players room))
            then [SocketTo s roomId "playerDisconnected"
                           (PPlayerDisconnected disconnectedPlayer
                                                (List.length (players room)))]
            else [] in
          Normal (cleanupRoom roomId st) out
      end
  end.

(** ** [socket.on('ping', ...)] *)

Definition on_ping (s : SocketId) (ack : bool) (st : Server) : Completion :=
  if ack then Normal st [Ack s PPong] else Normal st [].

(** ** The periodic sweep of inactive rooms *)

Definition maxInactiveTime : Z := 30 * 60 * 1000.

(** The body of the loop, for one entry of [rooms.entries()]. *)
Definition sweep_entry (now : Timestamp) (acc : Server) (entry : RoomId * Room)
  : Server :=
  if (now - lastActivity (snd entry) >? maxInactiveTime)%Z
  then mkServer (JsMap.delete (fst entry) (rooms acc))
                (JsMap.delete (fst entry) (games acc))
                (socketData acc) (joined acc)
  else acc.

Definition sweep (now : Timestamp) (st : Server) : Server :=
  fold_left (sweep_entry now) (rooms st) st.

(** The transport takes a closing connection out of all its groups before
    the [disconnect] listener runs. *)
Definition leave_all (s : SocketId) (st : Server) : Server :=
  mkServer (rooms st) (games st) (socketData st)
           (filter (fun sr => negb (String.eqb (fst sr) s)) (joined st)).

(** ** The event loop *)

Inductive Event : Type :=
| Username (s : SocketId) (name : string)
| CreateRoom (s : SocketId) (ack : bool) (uuid : string) (now : Timestamp)
| JoinRoom (s : SocketId) (args : option RoomId) (ack : bool) (now : Timestamp)
| Move (s : SocketId) (data : option MoveData) (now : Timestamp)
| GameReset (s : SocketId) (data : option RoomId) (now : Timestamp)
| Disconnect (s : SocketId) (now : Timestamp)
| Ping (s : SocketId) (ack : bool)
| Sweep (now : Timestamp).

Definition handle (ev : Event) (st : Server) : Completion :=
  match ev with
  | Username s name => on_username s name st
  | CreateRoom s ack uuid now => on_createRoom s ack uuid now st
  | JoinRoom s args ack now => on_joinRoom s args ack now st
  | Move s data now => on_move s data now st
  | GameReset _ data now => on_gameReset data now st
  | Disconnect s now => on_disconnect s now (leave_all s st)
  | Ping s ack => on_ping s ack st
  | Sweep now => Normal (sweep now st) []
  end.

(** The states the process can be in: an uncaught exception ends it. *)
Inductive reachable : Server -> Prop :=
| reachable_initial : reachable initial
| reachable_step : forall ev st st' out,
    reachable st -> handle ev st = Normal st' out -> reachable st'.

(** The same with the events handled so far, oldest first. *)
Inductive reached : list Event -> Server -> Prop :=
| reached_initial : reached [] initial
| reached_step : forall evs ev st st' out,
    reached evs st -> handle ev st = Normal st' out ->
    reached (evs ++ [ev]) st'.

(** Whether an event is the disconnection of the socket [s]. *)
Definition closes (s : SocketId) (ev : Event) : bool :=
  match ev with
  | Disconnect s' _ => String.eqb s' s
  | _ => false
  end.

(** The connection [s] has not been closed by any of the events. *)
Definition still_open (evs : list Event) (s : SocketId) : bool :=
  forallb (fun ev => negb (closes s ev)) evs.

(** Running a list of events from a state; [None] once the process died. *)
Fixpoint run (evs : list Event) (st : Server) : option Server :=
  match evs with
  | [] => Some st
  | ev :: evs' =>
      match handle ev st with
      | Normal st' _ => run evs' st'
      | Uncaught => None
      end
  end.

End Server.

Arguments initial {E}.
Arguments Uncaught {E}.
Arguments PRoomId {E}.
Arguments PFailure {E}.
Arguments PRoom {E}.
Arguments PError {E}.
Arguments PMove {E}.
Arguments PPlayerDisconnected {E}.
Arguments PSignal {E}.
Arguments PPong {E}.
Arguments mkEntry {E}.
Arguments mkUpdate {E}.
Arguments mkMoveData {E}.
Arguments error_to {E}.
Arguments turnColor {E}.
Arguments gameOverData_of {E}.
Arguments Username {E}.
Arguments CreateRoom {E}.
Arguments JoinRoom {E}.
Arguments GameReset {E}.
Arguments Disconnect {E}.
Arguments Ping {E}.
Arguments Sweep {E}.

(** ** Conditions and invariants used in the statements *)

Section Conditions.

Variable E : RulesEngine.

(** A move is accepted when the handler passes every guard: the room and
    the game exist, the socket is found among the players, the player's
    colour is the side to move, and [chess.move] returns [result], leaving
    the board [c']. *)
Definition move_accepted (st : Server E) (s : SocketId) (d : MoveData E)
           (room : Room) (game : Game E) (player : Player)
           (c' : Chess E) (result : MoveResult E) : Prop :=
  JsMap.get (md_room d) (rooms st) = Some room /\
  JsMap.get (md_room d) (games st) = Some game /\
  find (fun p => String.eqb (socketId p) s) (players room) = Some player /\
  color player = turnColor (chess game) /\
  engine_move E (chess game) (md_move d) = Accepted c' result.

(** The failure conditions of [submitMove] as the specification lists
    them, in its order (section 4.3, steps 1 to 4); an exception of the
    engine is the [Internal] kind of section 7. *)
Inductive MoveError : Type :=
| SessionNotFound
| NotAParticipant
| OutOfTurn
| IllegalMove
| Internal.

Definition session_exists (st : Server E) (r : RoomId) : bool :=
  match JsMap.get r (rooms st), JsMap.get r (games st) with
  | Some _, Some _ => true
  | _, _ => false
  end.

Definition is_participant (st : Server E) (r : RoomId) (s : SocketId) : bool :=
  match JsMap.get r (rooms st) with
  | Some room => existsb (fun p => String.eqb (socketId p) s) (players room)
  | None => false
  end.

Definition on_turn (st : Server E) (r : RoomId) (s : SocketId) : bool :=
  match JsMap.get r (rooms st), JsMap.get r (games st) with
  | Some room, Some game =>
      match find (fun p => String.eqb (socketId p) s) (players room) with
      | Some player => Color_eqb (color player) (turnColor (chess game))
      | None => false
      end
  | _, _ => false
  end.

Definition engine_verdict (st : Server E) (d : MoveData E) : option MoveError :=
  match JsMap.get (md_room d) (games st) with
  | Some game =>
      match engine_move E (chess game) (md_move d) with
      | Accepted _ _ => None
      | Rejected => Some IllegalMove
      | Threw => Some Internal
      end
  | None => None
  end.

Definition submitMove_failure (st : Server E) (s : SocketId) (d : MoveData E)
  : option MoveError :=
  if negb (session_exists st (md_room d)) then Some SessionNotFound
  else if negb (is_participant st (md_room d) s) then Some NotAParticipant
  else if negb (on_turn st (md_room d) s) then Some OutOfTurn
  else engine_verdict st d.

(** The message the handler sends for each kind. *)
Definition error_message (e : MoveError) : string :=
  match e with
  | SessionNotFound => "Room or game not found"
  | NotAParticipant => "Player not found in room"
  | OutOfTurn => "Not your turn"
  | IllegalMove => "Invalid move"
  | Internal => "Failed to process move"
  end.

(** [game.currentTurn] mirrors the engine's side to move. *)
Definition turn_synced (st : Server E) : Prop :=
  forall r game, In (r, game) (games st) -> currentTurn game = turnColor (chess game).

(** Every player listed in a room whose connection the events have not
    closed is a member of the group of that room. *)
Definition players_joined (evs : list (Event E)) (st : Server E) : Prop :=
  forall r room p,
    In (r, room) (rooms st) -> In p (players room) ->
    still_open evs (socketId p) = true ->
    In (socketId p, r) (joined st).

(** No room of the registry is empty. *)
Definition rooms_inhabited (st : Server E) : Prop :=
  forall r room, In (r, room) (rooms st) -> players room <> [].

End Conditions.

(** ** The HTTP routes *)

Section Routes.

Variable E : RulesEngine.

(** [GET /]: the field [activeRooms], that is [rooms.size]. *)
Definition activeRooms (st : Server E) : nat := List.length (rooms st).

(** An element of [roomList] in [GET /api/rooms]. *)
Record RoomSummary : Type := mkSummary {
  s_roomId : RoomId;
  s_playerCount : nat;
  s_status : RoomStatus;
  s_created : Timestamp
}.

Definition summary_of (room : Room) : RoomSummary :=
  mkSummary (roomId room) (List.length (players room)) (status room) (created room).

(** [Array.from(rooms.values()).map(room => ({ ... }))] *)
Definition roomList (st : Server E) : list RoomSummary :=
  map summary_of (map snd (rooms st)).

(** The body of the answer of [GET /api/rooms]: [{ rooms, total }]. *)
Definition api_rooms (st : Server E) : list RoomSummary * nat :=
  (roomList st, List.length (roomList st)).

End Routes.

(** ** Further conditions on the registries *)

Section Shapes.

Variable E : RulesEngine.

(** The test of the sweep: [now - lastActivity > maxInactiveTime]. *)
Definition inactive (now : Timestamp) (room : Room) : bool :=
  (now - lastActivity room >? maxInactiveTime)%Z.

(** How the two registries change together: both get a value under one
    key, one gets a new value under a key it has, or both lose a key. *)
Inductive evolves (R : JsMap.t Room) (G : JsMap.t (Game E))
  : JsMap.t Room -> JsMap.t (Game E) -> Prop :=
| evolves_refl : evolves R G R G
| evolves_set_both : forall R' G' k room game,
    evolves R G R' G' -> evolves R G (JsMap.set k room R') (JsMap.set k game G')
| evolves_set_room : forall R' G' k room,
    evolves R G R' G' -> JsMap.get k R' <> None ->
    evolves R G (JsMap.set k room R') G'
| evolves_set_game : forall R' G' k game,
    evolves R G R' G' -> JsMap.get k G' <> None ->
    evolves R G R' (JsMap.set k game G')
| evolves_delete : forall R' G' k,
    evolves R G R' G' -> evolves R G (JsMap.delete k R') (JsMap.delete k G').

(** A key is in [rooms] exactly when it is in [games]. *)
Definition same_keys (st : Server E) : Prop :=
  forall r, JsMap.get r (rooms st) = None <-> JsMap.get r (games st) = None.

(** No key occurs twice, as in a [Map]. *)
Definition keys_unique (st : Server E) : Prop :=
  NoDup (map fst (rooms st)) /\ NoDup (map fst (games st)).

(** A room is stored under its own id, has one or two players, and no
    socket is listed twice in it. *)
Definition room_in_shape (r : RoomId) (room : Room) : Prop :=
  roomId room = r /\
  1 <= List.length (players room) <= 2 /\
  NoDup (map socketId (players room)).

Definition rooms_in_shape (st : Server E) : Prop :=
  forall r room, In (r, room) (rooms st) -> room_in_shape r room.

(** The history has one record for each move counted. *)
Definition history_counted (st : Server E) : Prop :=
  forall r game, In (r, game) (games st) ->
                 N.of_nat (List.length (history game)) = moveCount game.

End Shapes.

(** ** A small rules engine

    The handlers are generic in the engine.  To run them on concrete
    events, this engine keeps the list of moves made (latest first):
    the empty string is refused, ["!"] makes [move] throw, a move ending in
    [#] mates and the move ["="] draws. *)

Module Script.

Fixpoint ends_with_hash (s : string) : bool :=
  match s with
  | EmptyString => false
  | String c EmptyString => Ascii.eqb c "#"%char
  | String _ s' => ends_with_hash s'
  end.

Definition turn (c : list string) : Side :=
  if Nat.even (List.length c) then side_w else side_b.

Definition move (c : list string) (m : string) : MoveAttempt (list string) string :=
  if String.eqb m "" then Rejected
  else if String.eqb m "!" then Threw
  else Accepted (m :: c) m.

Definition isCheckmate (c : list string) : bool :=
  match c with
  | m :: _ => ends_with_hash m
  | [] => false
  end.

Definition isDraw (c : list string) : bool :=
  match c with
  | m :: _ => String.eqb m "="
  | [] => false
  end.

Definition engine : RulesEngine :=
  mkEngine (Chess := list string) (MoveInput := string) (MoveResult := string)
           [] turn move
           (fun c => String.concat " " (rev c))
           (fun c => isCheckmate c || isDraw c)
           isCheckmate isDraw
           (fun _ => []).

Lemma laws : EngineLaws engine.
Proof.
  constructor; simpl.
  - reflexivity.
  - reflexivity.
  - intros c m c' r. unfold move.
    destruct (String.eqb m ""); [discriminate|].
    destruct (String.eqb m "!"); [discriminate|].
    intros H. inversion H; subst. unfold turn.
    change (List.length (r :: c)) with (S (List.length c)).
    rewrite Nat.even_succ, <- Nat.negb_even.
    destruct (Nat.even (List.length c)); reflexivity.
  - intros c H. rewrite H. reflexivity.
Qed.

End Script.

(** ** Concrete sessions on the small engine *)

Module Scenario.

Definition E := Script.engine.

Definition after (evs : list (Event E)) : Server E :=
  match run evs initial with
  | Some st => st
  | None => initial
  end.

Definition alice : SocketId := "sockA".
Definition bob : SocketId := "sockB".
Definition carol : SocketId := "sockC".

Definition uuid1 : string := "ab12cd34-5e6f-4a7b-8c9d-0e1f2a3b4c5d".
Definition uuid2 : string := "0f9e8d7c-6b5a-4f3e-9d2c-1b0a9f8e7d6c".
(** A uuid that starts with the same eight characters as [uuid1]. *)
Definition uuid3 : string := "ab12cd34-1111-4222-8333-444455556666".

Definition room1 : RoomId := "AB12CD34".
Definition room2 : RoomId := "0F9E8D7C".

Definition move_of (r : RoomId) (m : string) : MoveData E :=
  mkMoveData (E := E) m r.

Definition move_in (r : RoomId) (m : string) : option (MoveData E) :=
  Some (move_of r m).

Definition player_alice : Player := mkPlayer alice "alice" white false.
Definition player_bob : Player := mkPlayer bob "bob" black false.

(** Alice opens a room. *)
Definition opened : list (Event E) :=
  [Username alice "alice"; CreateRoom alice true uuid1 1000%Z].

(** Bob has set his name and is about to join it. *)
Definition bob_named : list (Event E) :=
  (opened ++ [Username bob "bob"])%list.

(** Bob joins it. *)
Definition paired : list (Event E) :=
  (opened ++ [Username bob "bob"; JoinRoom bob (Some room1) true 2000%Z])%list.

(** Alice plays a first move. *)
Definition started : list (Event E) :=
  (paired ++ [Move alice (move_in room1 "e4") 3000%Z])%list.

(** The three plies before the mate of the shortest game. *)
Definition before_mate : list (Event E) :=
  (paired ++ [Move alice (move_in room1 "f3") 3000%Z;
              Move bob (move_in room1 "e5") 4000%Z;
              Move alice (move_in room1 "g4") 5000%Z])%list.

(** Alice opens two rooms on the same connection. *)
Definition two_rooms : list (Event E) :=
  (opened ++ [CreateRoom alice true uuid2 1500%Z])%list.

(** Alice opens two rooms, Bob joins the second, Alice moves there and
    then disconnects: the second room still lists her. *)
Definition left_behind : list (Event E) :=
  (two_rooms ++ [Username bob "bob";
                 JoinRoom bob (Some room2) true 2000%Z;
                 Move alice (move_in room2 "e4") 3000%Z;
                 Disconnect alice 4000%Z])%list.

(** The room and the game of [room1] in these sessions. *)
Definition opened_room : Room :=
  mkRoom room1 [player_alice] status_waiting 1000%Z 1000%Z.

Definition opened_game : Game E := mkGame (E := E) [] waiting white 0%N [].

Definition paired_room : Room :=
  mkRoom room1 [player_alice; player_bob] status_ready 1000%Z 2000%Z.

Definition paired_game : Game E := mkGame (E := E) [] active white 0%N [].

Definition before_mate_room : Room :=
  mkRoom room1 [player_alice; player_bob] status_ready 1000%Z 5000%Z.

Definition before_mate_game : Game E :=
  mkGame (E := E) ["g4"; "e5"; "f3"] active black 3%N
         [mkEntry (E := E) "f3" "f3" 3000%Z "alice";
          mkEntry (E := E) "e5" "f3 e5" 4000%Z "bob";
          mkEntry (E := E) "g4" "f3 e5 g4" 5000%Z "alice"].

End Scenario.

(** ** Lemmas on [JsMap] *)

Module JsMapFacts.
Import JsMap.

Lemma get_set_same {V : Type} (k : string) (v : V) (m : t V) :
  get k (set k v m) = Some v.
Proof.
  induction m as [|[k' v'] m IH]; simpl.
  - rewrite String.eqb_refl. reflexivity.
  - destruct (String.eqb k k') eqn:Hk; simpl.
    + rewrite String.eqb_refl. reflexivity.
    + rewrite Hk. exact IH.
Qed.

Lemma get_set_other {V : Type} (k k0 : string) (v : V) (m : t V) :
  k0 <> k -> get k0 (set k v m) = get k0 m.
Proof.
  intros Hne. induction m as [|[k' v'] m IH]; simpl.
  - apply String.eqb_neq in Hne. rewrite Hne. reflexivity.
  - destruct (String.eqb k k') eqn:Hk; simpl.
    + apply String.eqb_eq in Hk. subst k'.
      apply String.eqb_neq in Hne. rewrite Hne. reflexivity.
    + rewrite IH. reflexivity.
Qed.

Lemma get_delete_same {V : Type} (k : string) (m : t V) :
  get k (delete k m) = None.
Proof.
  induction m as [|[k' v'] m IH]; simpl; [reflexivity|].
  destruct (String.eqb k k') eqn:Hk; simpl; [exact IH|].
  rewrite Hk. exact IH.
Qed.

Lemma get_delete_other {V : Type} (k k0 : string) (m : t V) :
  k0 <> k -> get k0 (delete k m) = get k0 m.
Proof.
  intros Hne. induction m as [|[k' v'] m IH]; simpl; [reflexivity|].
  destruct (String.eqb k k') eqn:Hk; simpl.
  - apply String.eqb_eq in Hk. subst k'.
    apply String.eqb_neq in Hne. rewrite Hne. exact IH.
  - rewrite IH. reflexivity.
Qed.

Lemma set_set {V : Type} (k : string) (v v0 : V) (m : t V) :
  set k v (set k v0 m) = set k v m.
Proof.
  induction m as [|[k' v'] m IH]; simpl.
  - rewrite String.eqb_refl. reflexivity.
  - destruct (String.eqb k k') eqn:Hk; simpl.
    + rewrite String.eqb_refl. reflexivity.
    + rewrite Hk, IH. reflexivity.
Qed.

Lemma get_In {V : Type} (k : string) (v : V) (m : t V) :
  get k m = Some v -> In (k, v) m.
Proof.
  induction m as [|[k' v'] m IH]; simpl; [discriminate|].
  destruct (String.eqb k k') eqn:Hk.
  - apply String.eqb_eq in Hk. intros H. inversion H; subst. now left.
  - intros H. right. now apply IH.
Qed.

Lemma In_set {V : Type} (k k0 : string) (v v0 : V) (m : t V) :
  In (k0, v0) (set k v m) -> (k0 = k /\ v0 = v) \/ In (k0, v0) m.
Proof.
  induction m as [|[k' v'] m IH]; simpl.
  - intros [H|[]]. inversion H. now left.
  - destruct (String.eqb k k') eqn:Hk; simpl.
    + intros [H|H]; [inversion H; now left | right; now right].
    + intros [H|H]; [right; now left|].
      destruct (IH H) as [?|?]; [now left | right; now right].
Qed.

Lemma In_delete {V : Type} (k : string) (x : string * V) (m : t V) :
  In x (delete k m) -> In x m.
Proof.
  induction m as [|[k' v'] m IH]; simpl; [tauto|].
  destruct (String.eqb k k'); simpl.
  - intros H. right. now apply IH.
  - intros [H|H]; [now left | right; now apply IH].
Qed.

Lemma In_delete_key {V : Type} (k k0 : string) (v : V) (m : t V) :
  In (k0, v) (delete k m) -> k0 <> k.
Proof.
  induction m as [|[k' v'] m IH]; simpl; [tauto|].
  destruct (String.eqb k k') eqn:Hk; simpl; [exact IH|].
  intros [H|H]; [|now apply IH].
  inversion H; subst. apply String.eqb_neq in Hk. congruence.
Qed.

End JsMapFacts.


(** * Properties *)

Section Properties.

Variable E : RulesEngine.

Import JsMapFacts.

(** ** The move handler *)

Lemma on_move_accepted (st : Server E) (s : SocketId) (d : MoveData E)
      (now : Timestamp) room game player c' result :
  move_accepted st s d room game player c' result ->
  on_move s (Some d) now st =
  Normal (mkServer (JsMap.set (md_room d) (touch room now) (rooms st))
                   (JsMap.set (md_room d)
                              (record_move game c' result player now) (games st))
                   (socketData st) (joined st))
         [SocketTo s (md_room d) "move" (PMove (md_move d));
          IoTo (md_room d) "gameUpdate"
               (PGameUpdate
                  (moveData_of (record_move game c' result player now) result))].
Proof.
  intros (Hr & Hg & Hp & Hc & Hm).
  unfold on_move. cbn zeta. rewrite Hr, Hg, Hp, Hc, Hm.
  destruct (turnColor (chess game)); reflexivity.
Qed.

Lemma Color_eqb_eq (a c : Color) : Color_eqb a c = true <-> a = c.
Proof. destruct a, c; simpl; split; congruence. Qed.

Lemma find_existsb {A : Type} (f : A -> bool) (l : list A) :
  existsb f l = match find f l with Some _ => true | None => false end.
Proof.
  induction l as [|x l IH]; simpl; [reflexivity|].
  destruct (f x); [reflexivity | exact IH].
Qed.

(** The handler follows the order of the specification: it reports the
    first failing condition and leaves the state as it was, or the move is
    accepted. *)
Lemma on_move_by_cases (st : Server E) (s : SocketId) (d : MoveData E)
      (now : Timestamp) :
  match submitMove_failure st s d with
  | Some e => on_move s (Some d) now st = Normal st [error_to s (error_message e)]
  | None => exists room game player c' result,
      move_accepted st s d room game player c' result
  end.
Proof.
  unfold submitMove_failure, session_exists, is_participant, on_turn,
    engine_verdict, on_move, move_accepted.
  cbn zeta.
  destruct (JsMap.get (md_room d) (rooms st)) as [room|] eqn:Hr;
    [|reflexivity].
  destruct (JsMap.get (md_room d) (games st)) as [game|] eqn:Hg;
    [|reflexivity].
  cbn [negb]. rewrite find_existsb.
  destruct (find _ (players room)) as [player|] eqn:Hp; [|reflexivity].
  cbn [negb].
  destruct (Color_eqb (color player) (turnColor (chess game))) eqn:Hc;
    [|reflexivity].
  cbn [negb].
  destruct (engine_move E (chess game) (md_move d)) as [c' result| |] eqn:Hm;
    try reflexivity.
  exists room, game, player, c', result.
  apply Color_eqb_eq in Hc. repeat split; assumption.
Qed.

Lemma error_message_injective (e1 e2 : MoveError) :
  error_message e1 = error_message e2 -> e1 = e2.
Proof. destruct e1, e2; simpl; intros H; try reflexivity; discriminate H. Qed.

(** C2: a move sent by a player of the room whose colour is not the side to
    move is answered with the error "Not your turn" to the sender, and the
    whole state, hence the move count, the current turn, the board and the
    history of the game, is left as it was. *)
Theorem out_of_turn_move_rejected_unchanged
        (st : Server E) (s : SocketId) (d : MoveData E) (now : Timestamp)
        (room : Room) (game : Game E) (player : Player) :
  JsMap.get (md_room d) (rooms st) = Some room ->
  JsMap.get (md_room d) (games st) = Some game ->
  find (fun p => String.eqb (socketId p) s) (players room) = Some player ->
  color player <> turnColor (chess game) ->
  on_move s (Some d) now st = Normal st [error_to s (error_message OutOfTurn)] /\
  forall st' out,
    on_move s (Some d) now st = Normal st' out ->
    JsMap.get (md_room d) (games st') = Some game /\ st' = st.
Proof.
  intros Hr Hg Hp Hc.
  assert (Hrun : on_move s (Some d) now st
                 = Normal st [error_to s (error_message OutOfTurn)]).
  { unfold on_move. cbn zeta. rewrite Hr, Hg, Hp.
    destruct (Color_eqb (color player) (turnColor (chess game))) eqn:Heq.
    - apply Color_eqb_eq in Heq. contradiction.
    - reflexivity. }
  split; [exact Hrun|].
  intros st' out H. rewrite Hrun in H. inversion H; subst. split; [exact Hg | reflexivity].
Qed.

(** C4: the handler checks, in this order, that the room and the game
    exist, that the sender is a player of the room, that it is the
    sender's turn and that the engine accepts the move; at the first check
    that fails it answers with one error message, of a text that names the
    check, to the sender alone, and changes nothing; a payload that cannot
    be read or an exception of the engine is answered the same way; the
    handler never lets an exception escape. *)
Theorem move_failures_ordered_and_unicast
        (st : Server E) (s : SocketId) (d : MoveData E) (now : Timestamp) :
  (forall e, submitMove_failure st s d = Some e ->
     on_move s (Some d) now st = Normal st [error_to s (error_message e)] /\
     recipients st (error_to s (error_message e)) = [s]) /\
  (submitMove_failure st s d = None ->
     exists room game player c' result,
       move_accepted st s d room game player c' result) /\
  on_move s None now st = Normal st [error_to s (error_message Internal)] /\
  (forall e1 e2, error_message e1 = error_message e2 -> e1 = e2) /\
  (forall data, on_move s data now st <> Uncaught).
Proof.
  pose proof (on_move_by_cases st s d now) as Hcases.
  split; [|split; [|split; [|split]]].
  - intros e He. rewrite He in Hcases. split; [exact Hcases | reflexivity].
  - intros Hnone. rewrite Hnone in Hcases. exact Hcases.
  - reflexivity.
  - exact error_message_injective.
  - intros [d0|]; [|discriminate].
    pose proof (on_move_by_cases st s d0 now) as H0.
    destruct (submitMove_failure st s d0).
    + rewrite H0. discriminate.
    + destruct H0 as (room & game & player & c' & result & Hacc).
      rewrite (on_move_accepted now Hacc). discriminate.
Qed.

(** ** What a handler does to the registries *)

Lemma first_room_of_In (s : SocketId) (entries : list (RoomId * Room)) r room i :
  first_room_of s entries = Some (r, room, i) -> In (r, room) entries.
Proof.
  induction entries as [|[r0 room0] rest IH]; simpl; [discriminate|].
  destruct (findIndex _ (players room0)).
  - intros H. inversion H; subst. now left.
  - intros H. right. now apply IH.
Qed.

Lemma sweep_entry_subset (now : Timestamp) (acc : Server E) (entry : RoomId * Room) :
  (forall x, In x (rooms (sweep_entry now acc entry)) -> In x (rooms acc)) /\
  (forall x, In x (games (sweep_entry now acc entry)) -> In x (games acc)) /\
  joined (sweep_entry now acc entry) = joined acc.
Proof.
  unfold sweep_entry.
  destruct (now - lastActivity (snd entry) >? maxInactiveTime)%Z; simpl.
  - repeat split; intros x Hx; eapply In_delete; exact Hx.
  - repeat split; auto.
Qed.

Lemma sweep_fold_subset (now : Timestamp) (l : list (RoomId * Room)) (acc : Server E) :
  (forall x, In x (rooms (fold_left (sweep_entry now) l acc)) -> In x (rooms acc)) /\
  (forall x, In x (games (fold_left (sweep_entry now) l acc)) -> In x (games acc)) /\
  joined (fold_left (sweep_entry now) l acc) = joined acc.
Proof.
  revert acc. induction l as [|entry l IH]; intros acc; simpl.
  - repeat split; auto.
  - destruct (IH (sweep_entry now acc entry)) as (Hr & Hg & Hj).
    destruct (sweep_entry_subset now acc entry) as (Hr0 & Hg0 & Hj0).
    repeat split.
    + intros x Hx. apply Hr0, Hr, Hx.
    + intros x Hx. apply Hg0, Hg, Hx.
    + now rewrite Hj.
Qed.

(** Where a game of the registry comes from after one event. *)
Lemma handle_games (ev : Event E) (st st' : Server E) out :
  handle ev st = Normal st' out ->
  forall r g, In (r, g) (games st') ->
    In (r, g) (games st) \/
    g = mkGame (newChess E) waiting white 0%N [] \/
    (exists g0, In (r, g0) (games st) /\ g = set_gameState g0 active) \/
    (exists g0 c' result player now,
        In (r, g0) (games st) /\ g = record_move g0 c' result player now) \/
    (exists g0, In (r, g0) (games st) /\ g = reset_game g0).
Proof.
  destruct ev as [s name|s ack uuid now|s args ack now|s data now|s data now
                 |s now|s ack|now]; simpl.
  - intros H. inversion H; subst. simpl. auto.
  - unfold on_createRoom, callback, callback_in_catch. destruct ack; simpl;
      [|discriminate].
    intros H. inversion H; subst. simpl. intros r g Hin.
    apply In_set in Hin. destruct Hin as [[_ ->]|Hin]; auto.
  - unfold on_joinRoom, callback, callback_in_catch, bind, try_catch.
    destruct args as [roomId|]; cbv beta iota;
      [|destruct ack; [intros H; inversion H; subst; auto | discriminate]].
    destruct (JsMap.get roomId (rooms st)) as [room|] eqn:Hr; cbv beta iota;
      [|destruct ack; [intros H; inversion H; subst; auto | discriminate]].
    destruct (Nat.leb 2 (List.length (players room))); cbv beta iota;
      [destruct ack; [intros H; inversion H; subst; auto | discriminate]|].
    destruct (existsb _ (players room)); cbv beta iota;
      [destruct ack; [intros H; inversion H; subst; auto | discriminate]|].
    destruct ack; [|discriminate]. cbv beta iota zeta.
    intros H. inversion H; subst. clear H.
    unfold socket_join, activate_game, with_rooms. cbn [games rooms].
    destruct (JsMap.get roomId (games st)) as [game|] eqn:Hg;
      cbn [games rooms with_games]; auto.
    intros r g Hin. apply In_set in Hin.
    destruct Hin as [[-> ->]|Hin]; auto.
    right. right. left. exists game. split; [now apply get_In | reflexivity].
  - destruct data as [d|]; [|intros H; inversion H; subst; auto].
    pose proof (on_move_by_cases st s d now) as Hc.
    destruct (submitMove_failure st s d).
    + rewrite Hc. intros H; inversion H; subst; auto.
    + destruct Hc as (room & game & player & c' & result & Hacc).
      rewrite (on_move_accepted now Hacc).
      intros H. inversion H; subst. simpl. intros r g Hin.
      apply In_set in Hin. destruct Hin as [[-> ->]|Hin]; auto.
      right. right. right. left. exists game, c', result, player, now.
      split; [|reflexivity]. apply get_In. apply Hacc.
  - unfold on_gameReset. destruct data as [roomId|]; simpl;
      [|intros H; inversion H; subst; auto].
    destruct (JsMap.get roomId (rooms st)) as [room|]; simpl;
      [|intros H; inversion H; subst; auto].
    destruct (JsMap.get roomId (games st)) as [game|] eqn:Hg; simpl;
      intros H; inversion H; subst; simpl; auto.
    intros r g Hin. apply In_set in Hin. destruct Hin as [[-> ->]|Hin]; auto.
    right. right. right. right. exists game. split; [now apply get_In | reflexivity].
  - unfold on_disconnect, leave_all. cbn [rooms games socketData joined].
    destruct (first_room_of s (rooms st)) as [[[roomId room] i]|];
      [|intros H; inversion H; subst; auto].
    destruct (nth_error (players room) i); [|discriminate].
    intros H. inversion H; subst. clear H.
    unfold cleanupRoom. simpl. rewrite get_set_same. simpl.
    destruct (Nat.eqb _ 0); simpl; auto.
    intros r g Hin. left. eapply In_delete. exact Hin.
  - unfold on_ping. destruct ack; intros H; inversion H; subst; auto.
  - intros H. inversion H; subst. intros r g Hin. left.
    unfold sweep in Hin. now apply (sweep_fold_subset now (rooms st) st).
Qed.

Lemma In_splice1 {A : Type} (i : nat) (l : list A) (x : A) :
  In x (splice1 i l) -> In x l.
Proof.
  unfold splice1. revert i. induction l as [|y l IH]; intros i.
  - destruct i; simpl; tauto.
  - destruct i; simpl.
    + intros H. now right.
    + intros [H|H]; [now left | right; now apply (IH i)].
Qed.

Lemma activate_game_rooms (r : RoomId) (st : Server E) :
  rooms (activate_game r st) = rooms st.
Proof. unfold activate_game. destruct (JsMap.get r (games st)); reflexivity. Qed.

Lemma activate_game_joined (r : RoomId) (st : Server E) :
  joined (activate_game r st) = joined st.
Proof. unfold activate_game. destruct (JsMap.get r (games st)); reflexivity. Qed.

(** Where a room of the registry comes from after one event; a group
    loses a member only by that member's disconnection. *)
Lemma handle_rooms (ev : Event E) (st st' : Server E) out :
  handle ev st = Normal st' out ->
  (forall x, In x (joined st) -> closes (fst x) ev = false -> In x (joined st')) /\
  forall r room, In (r, room) (rooms st') ->
    In (r, room) (rooms st) \/
    (exists s name now,
        room = mkRoom r [mkPlayer s name white false] status_waiting now now /\
        In (s, r) (joined st')) \/
    (exists room0 p now,
        In (r, room0) (rooms st) /\ room = push_player room0 p now /\
        In (socketId p, r) (joined st')) \/
    (exists room0 now, In (r, room0) (rooms st) /\ room = touch room0 now) \/
    (exists room0 i now,
        In (r, room0) (rooms st) /\ room = remove_player room0 i now /\
        players room <> []).
Proof.
  destruct ev as [s name|s ack uuid now|s args ack now|s data now|s data now
                 |s now|s ack|now]; cbn [handle].
  - intros H. inversion H; subst. cbn. auto.
  - unfold on_createRoom, callback, callback_in_catch, try_catch.
    destruct ack; cbv beta iota zeta; [|discriminate].
    intros H. inversion H; subst. clear H.
    unfold socket_join, with_rooms, with_games. cbn [rooms games joined socketData].
    split; [intros x Hx _; now right|].
    intros r room Hin. apply In_set in Hin. destruct Hin as [[-> ->]|Hin]; auto.
    right. left. exists s, (username_or_anonymous st s), now.
    split; [reflexivity | now left].
  - unfold on_joinRoom, callback, callback_in_catch, bind, try_catch.
    destruct args as [roomId|]; cbv beta iota;
      [|destruct ack; [intros H; inversion H; subst; auto | discriminate]].
    destruct (JsMap.get roomId (rooms st)) as [room|] eqn:Hr; cbv beta iota;
      [|destruct ack; [intros H; inversion H; subst; auto | discriminate]].
    destruct (Nat.leb 2 (List.length (players room))); cbv beta iota;
      [destruct ack; [intros H; inversion H; subst; auto | discriminate]|].
    destruct (existsb _ (players room)); cbv beta iota;
      [destruct ack; [intros H; inversion H; subst; auto | discriminate]|].
    destruct ack; [|discriminate]. cbv beta iota zeta.
    intros H. inversion H; subst. clear H.
    unfold socket_join. cbn [joined rooms].
    rewrite activate_game_rooms, activate_game_joined.
    unfold with_rooms. cbn [joined rooms].
    split; [intros x Hx _; now right|].
    intros r room' Hin. apply In_set in Hin. destruct Hin as [[-> ->]|Hin]; auto.
    right. right. left.
    exists room, (mkPlayer s (username_or_anonymous st s) black false), now.
    split; [now apply get_In|]. split; [reflexivity | now left].
  - destruct data as [d|]; [|intros H; inversion H; subst; auto].
    pose proof (on_move_by_cases st s d now) as Hc.
    destruct (submitMove_failure st s d).
    + rewrite Hc. intros H; inversion H; subst; auto.
    + destruct Hc as (room & game & player & c' & result & Hacc).
      rewrite (on_move_accepted now Hacc).
      intros H. inversion H; subst. cbn [rooms joined]. split; [auto|].
      intros r room' Hin.
      apply In_set in Hin. destruct Hin as [[-> ->]|Hin]; auto.
      right. right. right. left. exists room, now.
      split; [|reflexivity]. apply get_In. apply Hacc.
  - unfold on_gameReset, try_catch.
    destruct data as [roomId|]; cbv beta iota;
      [|intros H; inversion H; subst; auto].
    destruct (JsMap.get roomId (rooms st)) as [room|] eqn:Hr; cbv beta iota;
      [|intros H; inversion H; subst; auto].
    destruct (JsMap.get roomId (games st)) as [game|] eqn:Hg; cbv beta iota zeta;
      intros H; inversion H; subst; cbn [rooms joined]; auto.
    split; [auto|].
    intros r room' Hin. apply In_set in Hin. destruct Hin as [[-> ->]|Hin]; auto.
    right. right. right. left. exists room, now.
    split; [now apply get_In | reflexivity].
  - assert (Hleft : forall x : SocketId * RoomId,
               In x (joined st) -> closes (fst x) (Disconnect (E := E) s now) = false ->
               In x (filter (fun sr => negb (String.eqb (fst sr) s)) (joined st))).
    { intros x Hx Hopen. apply filter_In. split; [exact Hx|].
      cbn [closes] in Hopen. apply String.eqb_neq in Hopen.
      apply Bool.negb_true_iff. apply String.eqb_neq.
      intros Heq. exact (Hopen (eq_sym Heq)). }
    unfold on_disconnect, leave_all. cbn [rooms games socketData joined].
    destruct (first_room_of s (rooms st)) as [[[roomId room] i]|] eqn:Hfirst;
      [|intros H; inversion H; subst; cbn [rooms joined]; auto].
    destruct (nth_error (players room) i); [|discriminate].
    cbv beta iota zeta.
    intros H. inversion H; subst. clear H.
    apply first_room_of_In in Hfirst.
    unfold cleanupRoom, with_rooms. cbn [rooms games joined socketData].
    rewrite get_set_same.
    destruct (Nat.eqb (List.length (players (remove_player room i now))) 0) eqn:Hlen;
      cbn [rooms joined]; (split; [exact Hleft|]); intros r room' Hin.
    + pose proof (In_delete_key _ _ Hin) as Hne.
      apply In_delete in Hin. apply In_set in Hin.
      destruct Hin as [[-> _]|Hin]; [congruence | auto].
    + apply In_set in Hin. destruct Hin as [[-> ->]|Hin]; auto.
      right. right. right. right. exists room, i, now.
      split; [exact Hfirst|]. split; [reflexivity|].
      intros Hnil. rewrite Hnil in Hlen. discriminate.
  - unfold on_ping. destruct ack; intros H; inversion H; subst; auto.
  - intros H. inversion H; subst.
    destruct (sweep_fold_subset now (rooms st) st) as (Hr & _ & Hj).
    unfold sweep. rewrite Hj. split; [auto|].
    intros r room Hin. left. now apply Hr.
Qed.

(** ** Invariants of the reachable states *)

Lemma reachable_turn_synced (L : EngineLaws E) (st : Server E) :
  reachable st -> turn_synced st.
Proof.
  induction 1 as [|ev st st' out _ IH Hstep].
  - intros r game [].
  - intros r game Hin.
    destruct (handle_games _ _ Hstep _ _ Hin)
      as [Hold|[->|[(g0 & H0 & ->)|[(g0 & c' & res & pl & now & H0 & ->)
                                   |(g0 & H0 & ->)]]]].
    + now apply (IH r).
    + unfold turnColor. cbn. now rewrite (newChess_turn L).
    + cbn. now apply (IH r).
    + reflexivity.
    + unfold turnColor. cbn. now rewrite (reset_initial L), (newChess_turn L).
Qed.

Lemma still_open_snoc (evs : list (Event E)) (ev : Event E) (s : SocketId) :
  still_open (evs ++ [ev]) s = still_open evs s && negb (closes s ev).
Proof.
  unfold still_open. rewrite forallb_app. cbn. now rewrite Bool.andb_true_r.
Qed.

(** A player whose connection has not been closed is in the group of every
    room that lists it. *)
Lemma reached_players_joined (evs : list (Event E)) (st : Server E) :
  reached evs st -> players_joined evs st.
Proof.
  induction 1 as [|evs ev st st' out _ IH Hstep].
  - intros r room p [].
  - destruct (handle_rooms _ _ Hstep) as [Hkeep Horigin].
    intros r room p Hin Hp Hopen.
    rewrite still_open_snoc in Hopen. apply andb_prop in Hopen.
    destruct Hopen as [Hopen Hev]. apply Bool.negb_true_iff in Hev.
    destruct (Horigin _ _ Hin)
      as [Hold|[(s & name & now & -> & Hj)|[(room0 & p0 & now & H0 & -> & Hj)
             |[(room0 & now & H0 & ->)|(room0 & i & now & H0 & -> & _)]]]].
    + apply Hkeep; [now apply (IH r room) | exact Hev].
    + cbn in Hp. destruct Hp as [<-|[]]. exact Hj.
    + cbn in Hp. apply in_app_or in Hp. destruct Hp as [Hp|[<-|[]]].
      * apply Hkeep; [now apply (IH r room0) | exact Hev].
      * exact Hj.
    + apply Hkeep; [now apply (IH r room0) | exact Hev].
    + cbn in Hp. apply In_splice1 in Hp.
      apply Hkeep; [now apply (IH r room0) | exact Hev].
Qed.

Lemma reached_reachable (evs : list (Event E)) (st : Server E) :
  reached evs st -> reachable st.
Proof.
  induction 1 as [|evs ev st st' out _ IH Hstep].
  - constructor.
  - eapply reachable_step; eauto.
Qed.

Lemma run_reached (evs0 evs : list (Event E)) (st0 st : Server E) :
  reached evs0 st0 -> run evs st0 = Some st -> reached (evs0 ++ evs) st.
Proof.
  revert evs0 st0. induction evs as [|ev evs IH]; intros evs0 st0 H0; cbn [run].
  - intros H. inversion H; subst. now rewrite app_nil_r.
  - destruct (handle ev st0) as [st1 out|] eqn:Hstep; [|discriminate].
    intros Hrun.
    replace (evs0 ++ ev :: evs)%list with ((evs0 ++ [ev]) ++ evs)%list
      by (rewrite <- app_assoc; reflexivity).
    apply (IH (evs0 ++ [ev])%list st1); [|exact Hrun].
    eapply reached_step; eauto.
Qed.

Lemma reachable_rooms_inhabited (st : Server E) :
  reachable st -> rooms_inhabited st.
Proof.
  induction 1 as [|ev st st' out _ IH Hstep].
  - intros r room [].
  - destruct (handle_rooms _ _ Hstep) as [_ Horigin].
    intros r room Hin.
    destruct (Horigin _ _ Hin)
      as [Hold|[(s & name & now & -> & _)|[(room0 & p0 & now & H0 & -> & _)
             |[(room0 & now & H0 & ->)|(room0 & i & now & H0 & -> & Hne)]]]].
    + now apply (IH r).
    + discriminate.
    + cbn. intros Hnil. apply app_eq_nil in Hnil. destruct Hnil; discriminate.
    + cbn. now apply (IH r).
    + exact Hne.
Qed.

Lemma run_reachable (evs : list (Event E)) (st st' : Server E) :
  reachable st -> run evs st = Some st' -> reachable st'.
Proof.
  revert st. induction evs as [|ev evs IH]; intros st Hst; cbn [run].
  - intros H. inversion H; subst. exact Hst.
  - destruct (handle ev st) as [st1 out|] eqn:Hstep; [|discriminate].
    apply IH. eapply reachable_step; eauto.
Qed.

Lemma members_In (st : Server E) (s : SocketId) (r : RoomId) :
  In (s, r) (joined st) -> In s (members st r).
Proof.
  intros H. unfold members. apply in_map_iff. exists (s, r). split; [reflexivity|].
  apply filter_In. split; [exact H|]. cbn. apply String.eqb_refl.
Qed.

(** ** Accepted moves *)

(** C1: an accepted move makes the move count of the room's game one
    more than it was, and the current turn of the game becomes the other
    colour. *)
Theorem accepted_move_counts_and_flips
        (L : EngineLaws E) (st : Server E) (s : SocketId) (d : MoveData E)
        (now : Timestamp) room game player c' result :
  reachable st ->
  move_accepted st s d room game player c' result ->
  exists st' out game',
    on_move s (Some d) now st = Normal st' out /\
    JsMap.get (md_room d) (games st') = Some game' /\
    moveCount game' = (moveCount game + 1)%N /\
    currentTurn game' = flipColor (currentTurn game).
Proof.
  intros Hreach Hacc.
  eexists _, _, _. split; [exact (on_move_accepted now Hacc)|].
  cbn [games]. rewrite get_set_same. split; [reflexivity|]. split; [reflexivity|].
  destruct Hacc as (_ & Hg & _ & _ & Hm).
  rewrite (reachable_turn_synced L Hreach _ _ (get_In _ _ Hg)).
  cbn. unfold turnColor. rewrite (move_passes_turn L _ _ Hm).
  destruct (turn E (chess game)); reflexivity.
Qed.

(** C3: when the board after an accepted move is a checkmate, the game is
    marked finished and the game update names as winner the colour of the
    player who made the move, which is not the colour now to move. *)
Theorem checkmate_finishes_game_for_mover
        (L : EngineLaws E) (st : Server E) (s : SocketId) (d : MoveData E)
        (now : Timestamp) room game player c' result :
  move_accepted st s d room game player c' result ->
  isCheckmate E c' = true ->
  exists st' game' update over,
    on_move s (Some d) now st =
      Normal st' [SocketTo s (md_room d) "move" (PMove (md_move d));
                  IoTo (md_room d) "gameUpdate" (PGameUpdate update)] /\
    JsMap.get (md_room d) (games st') = Some game' /\
    gameState game' = finished /\
    u_gameOver update = Some over /\
    go_type over = checkmate /\
    go_winner over = Some (color player) /\
    color player <> currentTurn game' /\
    u_currentTurn update = currentTurn game'.
Proof.
  intros Hacc Hmate.
  pose proof (checkmate_is_over L _ Hmate) as Hover.
  eexists _, _, _, _. split; [exact (on_move_accepted now Hacc)|].
  cbn [games]. rewrite get_set_same. split; [reflexivity|].
  destruct Hacc as (_ & _ & _ & Hc & Hm).
  unfold moveData_of, record_move, gameOverData_of.
  cbn [chess gameState currentTurn u_gameOver u_currentTurn].
  rewrite Hover, Hmate.
  split; [reflexivity|]. split; [reflexivity|]. split; [reflexivity|].
  cbn [go_winner]. rewrite Hc. unfold turnColor.
  rewrite (move_passes_turn L _ _ Hm).
  destruct (turn E (chess game)); repeat split; discriminate.
Qed.

(** C5: on an accepted move the handler first updates the room and the
    game, then emits the raw move to the room's group without the sender
    and the game update, built from the updated game, to the whole group;
    every player of the room whose connection is open, other than the
    sender, is an addressee of the first, the sender is not, and every
    player whose connection is open, the sender included, is an addressee
    of the second. *)
Theorem accepted_move_is_broadcast
        (evs : list (Event E)) (st : Server E) (s : SocketId) (d : MoveData E)
        (now : Timestamp) room game player c' result :
  reached evs st ->
  still_open evs s = true ->
  move_accepted st s d room game player c' result ->
  exists st' room' game' raw update,
    on_move s (Some d) now st = Normal st' [raw; update] /\
    raw = SocketTo s (md_room d) "move" (PMove (md_move d)) /\
    JsMap.get (md_room d) (rooms st') = Some room' /\
    players room' = players room /\
    JsMap.get (md_room d) (games st') = Some game' /\
    update = IoTo (md_room d) "gameUpdate"
                  (PGameUpdate
                     (mkUpdate (fen E (chess game')) (currentTurn game')
                               (moveCount game') (gameOverData_of (chess game'))
                               (Some result))) /\
    (forall p, In p (players room') -> still_open evs (socketId p) = true ->
               socketId p <> s -> In (socketId p) (recipients st' raw)) /\
    ~ In s (recipients st' raw) /\
    (forall p, In p (players room') -> still_open evs (socketId p) = true ->
               In (socketId p) (recipients st' update)) /\
    In s (recipients st' update).
Proof.
  intros Hreach Hsender Hacc.
  eexists _, _, _, _, _. split; [exact (on_move_accepted now Hacc)|].
  split; [reflexivity|].
  cbn [rooms games]. rewrite !get_set_same.
  split; [reflexivity|]. split; [reflexivity|]. split; [reflexivity|].
  split; [reflexivity|].
  destruct Hacc as (Hr & _ & Hp & _ & _).
  assert (Hall : forall p, In p (players room) ->
                           still_open evs (socketId p) = true ->
                           In (socketId p) (members st (md_room d))).
  { intros p Hin Hopen. apply members_In.
    exact (reached_players_joined Hreach _ _ p (get_In _ _ Hr) Hin Hopen). }
  apply find_some in Hp. destruct Hp as [Hin Hs]. apply String.eqb_eq in Hs.
  cbn [recipients players touch]. unfold members in *. cbn [joined].
  repeat split.
  - intros p Hp Hopen Hne. apply filter_In. split; [now apply Hall|].
    apply String.eqb_neq in Hne. now rewrite Hne.
  - intros Hself. apply filter_In in Hself. destruct Hself as [_ Hself].
    rewrite String.eqb_refl in Hself. discriminate.
  - exact Hall.
  - rewrite <- Hs. apply Hall; [exact Hin | now rewrite Hs].
Qed.

(** C10: the handler looks neither at the state of the game nor at the
    number of players.  In a room with one player, still waiting, a move of
    that player on their turn that the engine accepts is recorded (move
    count, current turn, history) and emitted; with the same game in a
    room of two players and an active game, the handler emits the same
    messages and records the same board, count, turn and history. *)
Theorem waiting_room_move_accepted
        (st : Server E) (s : SocketId) (d : MoveData E) (now : Timestamp)
        room game player c' result :
  JsMap.get (md_room d) (rooms st) = Some room ->
  players room = [player] ->
  status room = status_waiting ->
  JsMap.get (md_room d) (games st) = Some game ->
  gameState game = waiting ->
  socketId player = s ->
  color player = turnColor (chess game) ->
  engine_move E (chess game) (md_move d) = Accepted c' result ->
  exists st' game' out,
    on_move s (Some d) now st = Normal st' out /\
    out = [SocketTo s (md_room d) "move" (PMove (md_move d));
           IoTo (md_room d) "gameUpdate" (PGameUpdate (moveData_of game' result))] /\
    JsMap.get (md_room d) (games st') = Some game' /\
    moveCount game' = (moveCount game + 1)%N /\
    currentTurn game' = turnColor c' /\
    history game' =
      (history game ++ [mkEntry result (fen E c') now (username player)])%list /\
    forall st2 room2 opponent,
      JsMap.get (md_room d) (rooms st2) = Some room2 ->
      players room2 = [player; opponent] ->
      status room2 = status_ready ->
      JsMap.get (md_room d) (games st2) = Some (set_gameState game active) ->
      exists st2' game2',
        on_move s (Some d) now st2 = Normal st2' out /\
        JsMap.get (md_room d) (games st2') = Some game2' /\
        chess game2' = chess game' /\
        moveCount game2' = moveCount game' /\
        currentTurn game2' = currentTurn game' /\
        history game2' = history game'.
Proof.
  intros Hr Hplayers _ Hg _ Hs Hc Hm.
  assert (Hacc : move_accepted st s d room game player c' result).
  { repeat split; try assumption.
    rewrite Hplayers. cbn. rewrite Hs, String.eqb_refl. reflexivity. }
  eexists _, _, _. split; [exact (on_move_accepted now Hacc)|].
  split; [reflexivity|].
  cbn [games]. rewrite get_set_same.
  split; [reflexivity|]. split; [reflexivity|]. split; [reflexivity|].
  split; [reflexivity|].
  intros st2 room2 opponent Hr2 Hplayers2 _ Hg2.
  assert (Hacc2 : move_accepted st2 s d room2 (set_gameState game active)
                                player c' result).
  { repeat split; try assumption.
    rewrite Hplayers2. cbn. rewrite Hs, String.eqb_refl. reflexivity. }
  eexists _, _. split; [exact (on_move_accepted now Hacc2)|].
  cbn [games]. rewrite get_set_same. repeat split.
Qed.

(** ** Reset *)

(** C6: when the room and its game exist, a reset stores the initial board,
    the active state, white to move, a move count of zero and an empty
    history, and tells the room; a second reset stores the same game again
    and changes only the room's time of last activity; when the room or
    the game is missing, or the payload cannot be read, nothing changes
    and nothing is emitted. *)
Theorem gameReset_reinitialises
        (L : EngineLaws E) (st : Server E) (roomId : RoomId) (now : Timestamp) :
  (forall room game,
      JsMap.get roomId (rooms st) = Some room ->
      JsMap.get roomId (games st) = Some game ->
      exists st1 out,
        on_gameReset (Some roomId) now st = Normal st1 out /\
        out = [IoTo roomId "gameReset" PSignal;
               IoTo roomId "gameUpdate"
                    (PGameUpdate
                       (mkUpdate (fen E (newChess E)) white 0%N None None))] /\
        JsMap.get roomId (games st1) =
          Some (mkGame (newChess E) active white 0%N []) /\
        JsMap.get roomId (rooms st1) = Some (touch room now) /\
        forall now2,
          on_gameReset (Some roomId) now2 st1 =
            Normal (with_rooms st1 (JsMap.set roomId (touch room now2) (rooms st1)))
                   out /\
          (now2 = now ->
           with_rooms st1 (JsMap.set roomId (touch room now2) (rooms st1)) = st1)) /\
  (JsMap.get roomId (rooms st) = None \/ JsMap.get roomId (games st) = None ->
   on_gameReset (Some roomId) now st = Normal st []) /\
  on_gameReset None now st = Normal st [].
Proof.
  split; [|split].
  - intros room game Hr Hg.
    unfold on_gameReset, try_catch. rewrite Hr, Hg. cbv beta iota zeta.
    unfold reset_game. cbn [chess]. rewrite (reset_initial L).
    eexists _, _. split; [reflexivity|]. split; [reflexivity|].
    cbn [games rooms]. rewrite !get_set_same.
    split; [reflexivity|]. split; [reflexivity|].
    intros now2. cbn [chess]. rewrite (reset_initial L).
    unfold with_rooms. cbn [games rooms socketData joined].
    rewrite !set_set. split; [reflexivity|].
    intros ->. reflexivity.
  - unfold on_gameReset, try_catch. intros [H|H]; rewrite H; [reflexivity|].
    destruct (JsMap.get roomId (rooms st)); reflexivity.
  - reflexivity.
Qed.

(** ** Joining and creating rooms *)

(** C9, as the code has it: a request to join a room by a connection that
    is already one of its players is refused through the callback and
    changes nothing; the refusal is "Already in this room" while the room
    has fewer than two players and "Room is full" once it has two, the
    check of the number of players coming first. *)
Theorem joinRoom_by_player_refused
        (st : Server E) (s : SocketId) (roomId : RoomId) (now : Timestamp)
        (room : Room) :
  JsMap.get roomId (rooms st) = Some room ->
  existsb (fun p => String.eqb (socketId p) s) (players room) = true ->
  on_joinRoom s (Some roomId) true now st =
  Normal st [Ack s (PFailure (if Nat.leb 2 (List.length (players room))
                              then "Room is full"
                              else "Already in this room"))].
Proof.
  intros Hr Hin.
  unfold on_joinRoom, try_catch, callback. rewrite Hr.
  destruct (Nat.leb 2 (List.length (players room))); [reflexivity|].
  rewrite Hin. reflexivity.
Qed.

(** C8, as the code has it: the room id is generated once and used as it
    is; the callback returns it, the new room and a new game are stored
    under it, and whatever is stored under any other id stays; so when the
    generated id is not in the registry no existing room or game is
    replaced. *)
Theorem createRoom_uses_generated_id
        (st : Server E) (s : SocketId) (uuid : string) (now : Timestamp) :
  exists st',
    on_createRoom s true uuid now st =
      Normal st' [Ack s (PRoomId (generateRoomId uuid))] /\
    JsMap.get (generateRoomId uuid) (rooms st') =
      Some (mkRoom (generateRoomId uuid)
                   [mkPlayer s (username_or_anonymous st s) white false]
                   status_waiting now now) /\
    JsMap.get (generateRoomId uuid) (games st') =
      Some (mkGame (newChess E) waiting white 0%N []) /\
    (forall r, r <> generateRoomId uuid ->
               JsMap.get r (rooms st') = JsMap.get r (rooms st) /\
               JsMap.get r (games st') = JsMap.get r (games st)) /\
    (JsMap.get (generateRoomId uuid) (rooms st) = None ->
     forall r room, JsMap.get r (rooms st) = Some room ->
                    JsMap.get r (rooms st') = Some room) /\
    (JsMap.get (generateRoomId uuid) (games st) = None ->
     forall r game, JsMap.get r (games st) = Some game ->
                    JsMap.get r (games st') = Some game).
Proof.
  eexists. split; [reflexivity|].
  unfold socket_join, with_rooms, with_games. cbn [rooms games].
  rewrite !get_set_same.
  split; [reflexivity|]. split; [reflexivity|]. split; [|split].
  - intros r Hne. split; now apply get_set_other.
  - intros Hfresh r room Hr. rewrite get_set_other; [exact Hr|].
    intros ->. congruence.
  - intros Hfresh r game Hg. rewrite get_set_other; [exact Hg|].
    intros ->. congruence.
Qed.

(** ** Disconnection *)

Lemma findIndex_nth {A : Type} (f : A -> bool) (l : list A) (i : nat) :
  findIndex f l = Some i -> exists x, nth_error l i = Some x /\ f x = true.
Proof.
  revert i. induction l as [|y l IH]; intros i; cbn; [discriminate|].
  destruct (f y) eqn:Hy.
  - intros H. inversion H; subst. exists y. now split.
  - destruct (findIndex f l) as [j|]; cbn; [|discriminate].
    intros H. inversion H; subst. cbn. now apply IH.
Qed.

Lemma first_room_of_index (s : SocketId) (entries : list (RoomId * Room)) r room i :
  first_room_of s entries = Some (r, room, i) ->
  findIndex (fun p => String.eqb (socketId p) s) (players room) = Some i.
Proof.
  induction entries as [|[r0 room0] rest IH]; cbn; [discriminate|].
  destruct (findIndex _ (players room0)) eqn:Hidx.
  - intros H. inversion H; subst. exact Hidx.
  - exact IH.
Qed.

(** The room the loop stops at: when the socket was its only player, the
    room and its game are deleted. *)
Lemma disconnect_empties_first_room
      (st : Server E) (s : SocketId) (now : Timestamp) r room i :
  first_room_of s (rooms st) = Some (r, room, i) ->
  List.length (players room) = 1 ->
  exists st',
    on_disconnect s now st = Normal st' [] /\
    JsMap.get r (rooms st') = None /\
    JsMap.get r (games st') = None.
Proof.
  intros Hfirst Hlen.
  pose proof (first_room_of_index _ _ Hfirst) as Hidx.
  destruct (players room) as [|p [|q l]] eqn:Hplayers; try discriminate.
  assert (i = 0) as ->.
  { cbn in Hidx. destruct (String.eqb (socketId p) s); cbn in Hidx; congruence. }
  unfold on_disconnect. rewrite Hfirst, Hplayers. cbn [nth_error].
  unfold remove_player, cleanupRoom, with_rooms. rewrite Hplayers.
  cbn [rooms games players splice1 firstn skipn app List.length Nat.ltb Nat.leb].
  rewrite get_set_same. cbn [players List.length Nat.eqb rooms games].
  eexists. split; [reflexivity|].
  cbn [rooms games]. split; apply get_delete_same.
Qed.

End Properties.

(** * The handlers on concrete sessions *)

Import Scenario.

Lemma after_reachable (evs : list (Event E)) :
  run evs initial <> None -> reachable (after evs).
Proof.
  unfold after. destruct (run evs initial) as [st|] eqn:Hrun; [|congruence].
  intros _. exact (run_reachable evs (reachable_initial E) Hrun).
Qed.

(** Alice's first move in the room she shares with Bob. *)
Lemma accepted_move_counts_and_flips_witness :
  exists st' out game',
    on_move alice (move_in room1 "e4") 3000%Z (after paired) = Normal st' out /\
    JsMap.get room1 (games st') = Some game' /\
    moveCount game' = (moveCount paired_game + 1)%N /\
    currentTurn game' = flipColor (currentTurn paired_game).
Proof.
  apply (@accepted_move_counts_and_flips E Script.laws (after paired) alice
           (move_of room1 "e4") 3000%Z paired_room paired_game player_alice
           ["e4"] "e4").
  - apply after_reachable. discriminate.
  - repeat split; reflexivity.
Defined.

(** Bob moving before Alice has. *)
Lemma out_of_turn_move_rejected_unchanged_witness :
  on_move bob (move_in room1 "e5") 3000%Z (after paired) =
    Normal (after paired) [error_to bob "Not your turn"] /\
  forall st' out,
    on_move bob (move_in room1 "e5") 3000%Z (after paired) = Normal st' out ->
    JsMap.get room1 (games st') = Some paired_game /\ st' = after paired.
Proof.
  apply (@out_of_turn_move_rejected_unchanged E (after paired) bob
           (move_of room1 "e5") 3000%Z paired_room paired_game player_bob).
  - reflexivity.
  - reflexivity.
  - reflexivity.
  - discriminate.
Defined.

(** Bob's mate after f3, e5, g4. *)
Lemma checkmate_finishes_game_for_mover_witness :
  exists st' game' update over,
    on_move bob (move_in room1 "Qh4#") 6000%Z (after before_mate) =
      Normal st' [SocketTo bob room1 "move" (PMove (E := E) "Qh4#");
                  IoTo room1 "gameUpdate" (PGameUpdate update)] /\
    JsMap.get room1 (games st') = Some game' /\
    gameState game' = finished /\
    u_gameOver update = Some over /\
    go_type over = checkmate /\
    go_winner over = Some black /\
    black <> currentTurn game' /\
    u_currentTurn update = currentTurn game'.
Proof.
  apply (@checkmate_finishes_game_for_mover E Script.laws (after before_mate) bob
           (move_of room1 "Qh4#") 6000%Z before_mate_room before_mate_game
           player_bob ["Qh4#"; "g4"; "e5"; "f3"] "Qh4#").
  - repeat split; reflexivity.
  - reflexivity.
Defined.

Lemma after_reached (evs : list (Event E)) :
  run evs initial <> None -> reached evs (after evs).
Proof.
  unfold after. destruct (run evs initial) as [st|] eqn:Hrun; [|congruence].
  intros _. exact (run_reached evs (reached_initial E) Hrun).
Qed.

(** Alice's first move reaches Bob, and the game update reaches both. *)
Lemma accepted_move_is_broadcast_witness :
  exists st' room' game' raw update,
    on_move alice (move_in room1 "e4") 3000%Z (after paired)
      = Normal st' [raw; update] /\
    raw = SocketTo alice room1 "move" (PMove (E := E) "e4") /\
    JsMap.get room1 (rooms st') = Some room' /\
    players room' = [player_alice; player_bob] /\
    JsMap.get room1 (games st') = Some game' /\
    update = IoTo room1 "gameUpdate"
                  (PGameUpdate
                     (mkUpdate (E := E) (fen E (chess game')) (currentTurn game')
                               (moveCount game')
                               (gameOverData_of (E := E) (chess game'))
                               (Some "e4"))) /\
    (forall p, In p (players room') -> still_open paired (socketId p) = true ->
               socketId p <> alice -> In (socketId p) (recipients st' raw)) /\
    ~ In alice (recipients st' raw) /\
    (forall p, In p (players room') -> still_open paired (socketId p) = true ->
               In (socketId p) (recipients st' update)) /\
    In alice (recipients st' update).
Proof.
  apply (@accepted_move_is_broadcast E paired (after paired) alice
           (move_of room1 "e4") 3000%Z paired_room paired_game player_alice
           ["e4"] "e4").
  - exact (after_reached paired ltac:(discriminate)).
  - reflexivity.
  - repeat split; reflexivity.
Defined.

(** Alice moving alone in the room she has just opened. *)
Lemma waiting_room_move_accepted_witness :
  exists (st' : Server E) (game' : Game E) out,
    on_move alice (move_in room1 "e4") 3000%Z (after opened) = Normal st' out /\
    out = [SocketTo alice room1 "move" (PMove (E := E) "e4");
           IoTo room1 "gameUpdate" (PGameUpdate (moveData_of game' "e4"))] /\
    JsMap.get room1 (games st') = Some game' /\
    moveCount game' = 1%N /\
    currentTurn game' = black /\
    history game' = [mkEntry (E := E) "e4" "e4" 3000%Z "alice"] /\
    forall st2 room2 opponent,
      JsMap.get room1 (rooms st2) = Some room2 ->
      players room2 = [player_alice; opponent] ->
      status room2 = status_ready ->
      JsMap.get room1 (games st2) = Some (set_gameState opened_game active) ->
      exists st2' game2',
        on_move alice (move_in room1 "e4") 3000%Z st2 = Normal st2' out /\
        JsMap.get room1 (games st2') = Some game2' /\
        chess game2' = chess game' /\
        moveCount game2' = moveCount game' /\
        currentTurn game2' = currentTurn game' /\
        history game2' = history game'.
Proof.
  apply (@waiting_room_move_accepted E (after opened) alice
           (move_of room1 "e4") 3000%Z opened_room opened_game player_alice
           ["e4"] "e4"); reflexivity.
Defined.

(** A reset after Alice's first move. *)
Lemma gameReset_reinitialises_witness :
  (forall room game,
      JsMap.get room1 (rooms (after started)) = Some room ->
      JsMap.get room1 (games (after started)) = Some game ->
      exists st1 out,
        on_gameReset (Some room1) 7000%Z (after started) = Normal st1 out /\
        out = [IoTo room1 "gameReset" PSignal;
               IoTo room1 "gameUpdate"
                    (PGameUpdate (mkUpdate (E := E) "" white 0%N None None))] /\
        JsMap.get room1 (games st1) = Some (mkGame (E := E) [] active white 0%N []) /\
        JsMap.get room1 (rooms st1) = Some (touch room 7000%Z) /\
        forall now2,
          on_gameReset (Some room1) now2 st1 =
            Normal (with_rooms st1 (JsMap.set room1 (touch room now2) (rooms st1)))
                   out /\
          (now2 = 7000%Z ->
           with_rooms st1 (JsMap.set room1 (touch room now2) (rooms st1)) = st1)) /\
  (JsMap.get room1 (rooms (after started)) = None \/
   JsMap.get room1 (games (after started)) = None ->
   on_gameReset (Some room1) 7000%Z (after started) = Normal (after started) []) /\
  on_gameReset (E := E) None 7000%Z (after started) = Normal (after started) [].
Proof.
  exact (@gameReset_reinitialises E Script.laws (after started) room1 7000%Z).
Defined.

(** Alice asking to join the room she opened. *)
Lemma joinRoom_by_player_refused_witness :
  on_joinRoom alice (Some room1) true 5000%Z (after opened) =
  Normal (after opened) [Ack alice (PFailure "Already in this room")].
Proof.
  exact (@joinRoom_by_player_refused E (after opened) alice room1 5000%Z
           opened_room eq_refl eq_refl).
Defined.

(** C9 does not hold for a full room: Alice is a player of the room she
    shares with Bob, and her request to join it is refused as "Room is
    full", not as "Already in this room". *)
Lemma joinRoom_by_player_of_full_room :
  is_participant (after paired) room1 alice = true /\
  on_joinRoom alice (Some room1) true 9000%Z (after paired) =
    Normal (after paired) [Ack alice (PFailure "Room is full")] /\
  on_joinRoom alice (Some room1) true 9000%Z (after paired) <>
    Normal (after paired) [Ack alice (PFailure "Already in this room")].
Proof.
  split; [reflexivity|]. split; [reflexivity|].
  intros H. vm_compute in H. discriminate H.
Qed.

(** C8 does not hold on a collision: the id generated for Carol's room is
    the id of the room of Alice and Bob; it is returned as it is, and their
    room and their game, one move in, are replaced by Carol's. *)
Lemma createRoom_collision_replaces_room :
  reachable (after started) /\
  generateRoomId uuid3 = room1 /\
  option_map players (JsMap.get room1 (rooms (after started)))
    = Some [player_alice; player_bob] /\
  option_map (@moveCount E) (JsMap.get room1 (games (after started))) = Some 1%N /\
  exists st',
    on_createRoom carol true uuid3 9000%Z (after started) =
      Normal st' [Ack carol (PRoomId room1)] /\
    option_map players (JsMap.get room1 (rooms st'))
      = Some [mkPlayer carol "Anonymous" white false] /\
    option_map (@moveCount E) (JsMap.get room1 (games st')) = Some 0%N.
Proof.
  split; [apply after_reachable; discriminate|].
  split; [reflexivity|]. split; [reflexivity|]. split; [reflexivity|].
  eexists. split; [reflexivity|]. split; reflexivity.
Qed.

(** C7, the code at the failing input: Alice has opened two rooms on one
    connection and is the only player of each; when she disconnects, the
    loop deletes the first room and stops, and the second room stays in the
    registry with Alice still listed and its game in place. *)
Theorem disconnect_stops_at_first_room :
  reachable (after two_rooms) /\
  option_map players (JsMap.get room2 (rooms (after two_rooms)))
    = Some [player_alice] /\
  exists st',
    on_disconnect alice 9000%Z (after two_rooms) = Normal st' [] /\
    JsMap.get room1 (rooms st') = None /\
    option_map players (JsMap.get room2 (rooms st')) = Some [player_alice] /\
    JsMap.get room2 (games st') = Some (mkGame (E := E) [] waiting white 0%N []).
Proof.
  split; [apply after_reachable; discriminate|].
  split; [reflexivity|].
  eexists. split; [reflexivity|]. repeat split.
Qed.

(** * Further properties of the handlers *)

(** ** More lemmas on [JsMap] *)

Module JsMapKeys.
Import JsMap JsMapFacts.

Lemma get_set {V : Type} (k r : string) (v : V) (m : t V) :
  get r (set k v m) = if String.eqb r k then Some v else get r m.
Proof.
  destruct (String.eqb r k) eqn:Hrk.
  - apply String.eqb_eq in Hrk. subst r. apply get_set_same.
  - apply String.eqb_neq in Hrk. now apply get_set_other.
Qed.

Lemma get_delete {V : Type} (k r : string) (m : t V) :
  get r (delete k m) = if String.eqb r k then None else get r m.
Proof.
  destruct (String.eqb r k) eqn:Hrk.
  - apply String.eqb_eq in Hrk. subst r. apply get_delete_same.
  - apply String.eqb_neq in Hrk. now apply get_delete_other.
Qed.

Lemma get_None_keys {V : Type} (k : string) (m : t V) :
  get k m = None <-> ~ In k (map fst m).
Proof.
  induction m as [|[k' v'] m IH]; cbn; [tauto|].
  destruct (String.eqb k k') eqn:Hk.
  - apply String.eqb_eq in Hk. subst k'. split; [discriminate | tauto].
  - apply String.eqb_neq in Hk. rewrite IH. split.
    + intros H [Heq|Hin]; [congruence | tauto].
    + tauto.
Qed.

Lemma In_get_some {V : Type} (k : string) (v : V) (m : t V) :
  In (k, v) m -> get k m <> None.
Proof.
  intros Hin Hnone. apply get_None_keys in Hnone. apply Hnone.
  apply in_map_iff. exists (k, v). now split.
Qed.

Lemma In_get_unique {V : Type} (k : string) (v : V) (m : t V) :
  NoDup (map fst m) -> In (k, v) m -> get k m = Some v.
Proof.
  induction m as [|[k' v'] m IH]; cbn; [tauto|].
  intros Hnd [Heq|Hin].
  - inversion Heq; subst. now rewrite String.eqb_refl.
  - inversion Hnd as [|? ? Hnot Hnd']; subst.
    destruct (String.eqb k k') eqn:Hk.
    + apply String.eqb_eq in Hk. subst k'. exfalso. apply Hnot.
      apply in_map_iff. exists (k, v). now split.
    + now apply IH.
Qed.

Lemma In_keys_set {V : Type} (k x : string) (v : V) (m : t V) :
  In x (map fst (set k v m)) -> x = k \/ In x (map fst m).
Proof.
  intros H. apply in_map_iff in H. destruct H as [[k0 v0] [Hx Hin]].
  cbn in Hx. subst k0. apply In_set in Hin. destruct Hin as [[-> _]|Hin].
  - now left.
  - right. apply in_map_iff. exists (x, v0). now split.
Qed.

Lemma In_keys_delete {V : Type} (k x : string) (m : t V) :
  In x (map fst (delete k m)) -> In x (map fst m).
Proof.
  intros H. apply in_map_iff in H. destruct H as [[k0 v0] [Hx Hin]].
  apply In_delete in Hin. apply in_map_iff. exists (k0, v0). now split.
Qed.

Lemma NoDup_keys_set {V : Type} (k : string) (v : V) (m : t V) :
  NoDup (map fst m) -> NoDup (map fst (set k v m)).
Proof.
  induction m as [|[k' v'] m IH]; cbn.
  - intros _. constructor; [tauto | constructor].
  - intros Hnd. inversion Hnd as [|? ? Hnot Hnd']; subst.
    destruct (String.eqb k k') eqn:Hk; cbn.
    + apply String.eqb_eq in Hk. subst k'. now constructor.
    + constructor; [|now apply IH].
      intros Hin. apply In_keys_set in Hin. destruct Hin as [->|Hin].
      * rewrite String.eqb_refl in Hk. discriminate.
      * contradiction.
Qed.

Lemma NoDup_keys_delete {V : Type} (k : string) (m : t V) :
  NoDup (map fst m) -> NoDup (map fst (delete k m)).
Proof.
  induction m as [|[k' v'] m IH]; cbn; [tauto|].
  intros Hnd. inversion Hnd as [|? ? Hnot Hnd']; subst.
  destruct (String.eqb k k'); cbn; [now apply IH|].
  constructor; [|now apply IH].
  intros Hin. apply Hnot. now apply In_keys_delete in Hin.
Qed.

End JsMapKeys.

Section Coverage.

Variable E : RulesEngine.

Import JsMapFacts JsMapKeys.

(** ** What each handler returns *)

Lemma on_joinRoom_outcome (s : SocketId) (args : option RoomId) (ack : bool)
      (now : Timestamp) (st st' : Server E) out :
  on_joinRoom s args ack now st = Normal st' out ->
  (st' = st /\ exists message, out = [Ack s (PFailure message)]) \/
  (exists r room,
      args = Some r /\
      JsMap.get r (rooms st) = Some room /\
      List.length (players room) < 2 /\
      existsb (fun p => String.eqb (socketId p) s) (players room) = false /\
      st' = socket_join s r
              (activate_game r
                 (with_rooms st
                    (JsMap.set r
                       (push_player room
                          (mkPlayer s (username_or_anonymous st s) black false) now)
                       (rooms st)))) /\
      out = [Ack s (PRoom (push_player room
                             (mkPlayer s (username_or_anonymous st s) black false)
                             now));
             SocketTo s r "opponentJoined"
                      (PRoom (push_player room
                                (mkPlayer s (username_or_anonymous st s) black false)
                                now))]).
Proof.
  unfold on_joinRoom, callback, callback_in_catch, bind, try_catch.
  destruct args as [r|]; cbv beta iota;
    [|destruct ack; [intros H; inversion H; subst; left; eauto | discriminate]].
  destruct (JsMap.get r (rooms st)) as [room|] eqn:Hr; cbv beta iota;
    [|destruct ack; [intros H; inversion H; subst; left; eauto | discriminate]].
  destruct (Nat.leb 2 (List.length (players room))) eqn:Hlen; cbv beta iota;
    [destruct ack; [intros H; inversion H; subst; left; eauto | discriminate]|].
  destruct (existsb _ (players room)) eqn:Hin; cbv beta iota;
    [destruct ack; [intros H; inversion H; subst; left; eauto | discriminate]|].
  destruct ack; [|discriminate]. cbv beta iota zeta.
  intros H. inversion H; subst. clear H. right.
  exists r, room. apply Nat.leb_gt in Hlen. repeat split; assumption.
Qed.

Lemma on_gameReset_outcome (data : option RoomId) (now : Timestamp)
      (st st' : Server E) out :
  on_gameReset data now st = Normal st' out ->
  (st' = st /\ out = []) \/
  (exists r room game,
      data = Some r /\
      JsMap.get r (rooms st) = Some room /\
      JsMap.get r (games st) = Some game /\
      st' = mkServer (JsMap.set r (touch room now) (rooms st))
                     (JsMap.set r (reset_game game) (games st))
                     (socketData st) (joined st) /\
      out = [IoTo r "gameReset" PSignal;
             IoTo r "gameUpdate"
                  (PGameUpdate
                     (mkUpdate (fen E (chess (reset_game game))) white 0%N
                               None None))]).
Proof.
  unfold on_gameReset, try_catch.
  destruct data as [r|]; cbv beta iota;
    [|intros H; inversion H; subst; now left].
  destruct (JsMap.get r (rooms st)) as [room|] eqn:Hr; cbv beta iota;
    [|intros H; inversion H; subst; now left].
  destruct (JsMap.get r (games st)) as [game|] eqn:Hg; cbv beta iota zeta;
    intros H; inversion H; subst; [|now left].
  right. exists r, room, game. repeat split; assumption.
Qed.

Lemma on_disconnect_outcome (s : SocketId) (now : Timestamp) (st : Server E) :
  (first_room_of s (rooms st) = None /\ on_disconnect s now st = Normal st []) \/
  (exists r room i p,
      first_room_of s (rooms st) = Some (r, room, i) /\
      nth_error (players room) i = Some p /\
      socketId p = s /\
      on_disconnect s now st =
        Normal (cleanupRoom r
                  (with_rooms st
                     (JsMap.set r (remove_player room i now) (rooms st))))
               (if Nat.ltb 0 (List.length (players (remove_player room i now)))
                then [SocketTo s r "playerDisconnected"
                               (PPlayerDisconnected p
                                  (List.length (players (remove_player room i now))))]
                else [])).
Proof.
  unfold on_disconnect.
  destruct (first_room_of s (rooms st)) as [[[r room] i]|] eqn:Hfirst;
    [|now left].
  right.
  destruct (findIndex_nth _ _ (first_room_of_index _ _ Hfirst)) as (p & Hp & Hs).
  apply String.eqb_eq in Hs.
  exists r, room, i, p. rewrite Hp. repeat split; assumption.
Qed.

(** ** The registries change together *)

Lemma sweep_fold_evolves (now : Timestamp) (R : JsMap.t Room) (G : JsMap.t (Game E))
      (l : list (RoomId * Room)) (acc : Server E) :
  evolves R G (rooms acc) (games acc) ->
  evolves R G (rooms (fold_left (sweep_entry now) l acc))
              (games (fold_left (sweep_entry now) l acc)).
Proof.
  revert acc. induction l as [|entry l IH]; intros acc Hacc; cbn [fold_left].
  - exact Hacc.
  - apply IH. unfold sweep_entry.
    destruct (now - lastActivity (snd entry) >? maxInactiveTime)%Z; cbn [rooms games].
    + now apply evolves_delete.
    + exact Hacc.
Qed.

Lemma handle_evolves (ev : Event E) (st st' : Server E) out :
  handle ev st = Normal st' out ->
  evolves (rooms st) (games st) (rooms st') (games st').
Proof.
  destruct ev as [s name|s ack uuid now|s args ack now|s data now|s data now
                 |s now|s ack|now]; cbn [handle].
  - intros H. inversion H; subst. cbn. constructor.
  - unfold on_createRoom, callback, callback_in_catch, try_catch.
    destruct ack; cbv beta iota zeta; [|discriminate].
    intros H. inversion H; subst. clear H.
    unfold socket_join, with_rooms, with_games. cbn [rooms games].
    apply evolves_set_both. constructor.
  - intros H. apply on_joinRoom_outcome in H.
    destruct H as [[-> _]|(r & room & _ & Hr & _ & _ & -> & _)]; [constructor|].
    unfold socket_join, activate_game, with_rooms. cbn [rooms games].
    destruct (JsMap.get r (games st)) as [game|] eqn:Hg; cbn [rooms games with_games].
    + apply evolves_set_game; [|congruence].
      apply evolves_set_room; [constructor | congruence].
    + apply evolves_set_room; [constructor | congruence].
  - destruct data as [d|]; [|intros H; inversion H; subst; constructor].
    pose proof (on_move_by_cases st s d now) as Hc.
    destruct (submitMove_failure st s d).
    + rewrite Hc. intros H; inversion H; subst; constructor.
    + destruct Hc as (room & game & player & c' & result & Hacc).
      rewrite (on_move_accepted now Hacc).
      intros H. inversion H; subst. cbn [rooms games].
      apply evolves_set_both. constructor.
  - intros H. apply on_gameReset_outcome in H.
    destruct H as [[-> _]|(r & room & game & _ & _ & _ & -> & _)]; [constructor|].
    cbn [rooms games]. apply evolves_set_both. constructor.
  - destruct (on_disconnect_outcome s now (leave_all s st))
      as [[_ Hrun]|(r & room & i & p & Hfirst & _ & _ & Hrun)];
      rewrite Hrun; intros H; inversion H; subst; [constructor|].
    apply first_room_of_In in Hfirst.
    unfold cleanupRoom, with_rooms, leave_all in *.
    cbn [rooms games socketData joined] in *.
    rewrite get_set_same.
    destruct (Nat.eqb _ 0); cbn [rooms games].
    + apply evolves_delete. apply evolves_set_room; [constructor|].
      now apply In_get_some with (v := room).
    + apply evolves_set_room; [constructor|].
      now apply In_get_some with (v := room).
  - unfold on_ping. destruct ack; intros H; inversion H; subst; constructor.
  - intros H. inversion H; subst. unfold sweep.
    apply sweep_fold_evolves. constructor.
Qed.

Lemma evolves_same_keys (R R' : JsMap.t Room) (G G' : JsMap.t (Game E)) :
  evolves R G R' G' ->
  (forall r, JsMap.get r R = None <-> JsMap.get r G = None) ->
  forall r, JsMap.get r R' = None <-> JsMap.get r G' = None.
Proof.
  intros Hev Hsame. induction Hev as [|R' G' k room game _ IH|R' G' k room _ IH Hk
                                     |R' G' k game _ IH Hk|R' G' k _ IH]; intros r.
  - apply Hsame.
  - rewrite !get_set. destruct (String.eqb r k); [split; discriminate | apply IH].
  - rewrite get_set. destruct (String.eqb r k) eqn:Hrk; [|apply IH].
    apply String.eqb_eq in Hrk. subst r. split; [discriminate|].
    intros Hnone. apply IH in Hnone. contradiction.
  - rewrite get_set. destruct (String.eqb r k) eqn:Hrk; [|apply IH].
    apply String.eqb_eq in Hrk. subst r. split; [|discriminate].
    intros Hnone. apply IH in Hnone. contradiction.
  - rewrite !get_delete. destruct (String.eqb r k); [tauto | apply IH].
Qed.

Lemma evolves_keys_unique (R R' : JsMap.t Room) (G G' : JsMap.t (Game E)) :
  evolves R G R' G' ->
  NoDup (map fst R) /\ NoDup (map fst G) ->
  NoDup (map fst R') /\ NoDup (map fst G').
Proof.
  intros Hev Hnd. induction Hev as [|R' G' k room game _ IH|R' G' k room _ IH Hk
                                   |R' G' k game _ IH Hk|R' G' k _ IH].
  - exact Hnd.
  - destruct IH. split; now apply NoDup_keys_set.
  - destruct IH. split; [now apply NoDup_keys_set | assumption].
  - destruct IH. split; [assumption | now apply NoDup_keys_set].
  - destruct IH. split; now apply NoDup_keys_delete.
Qed.

Lemma reachable_keys_unique (st : Server E) : reachable st -> keys_unique st.
Proof.
  induction 1 as [|ev st st' out _ IH Hstep].
  - split; constructor.
  - exact (evolves_keys_unique (handle_evolves _ _ Hstep) IH).
Qed.

(** ** Invariants of the registries *)

(** X2: in every state the process can reach, a room id is a key of
    [rooms] exactly when it is a key of [games]: a room and its game are
    stored together and deleted together. *)
Theorem room_and_game_share_lifecycle (st : Server E) :
  reachable st ->
  forall r, JsMap.get r (rooms st) = None <-> JsMap.get r (games st) = None.
Proof.
  induction 1 as [|ev st st' out _ IH Hstep].
  - intros r. cbn. tauto.
  - exact (evolves_same_keys (handle_evolves _ _ Hstep) IH).
Qed.

Lemma splice1_length {A : Type} (i : nat) (l : list A) :
  List.length (splice1 i l) <= List.length l.
Proof.
  unfold splice1. rewrite length_app, length_firstn, length_skipn. lia.
Qed.

Lemma NoDup_map_splice1 {A B : Type} (f : A -> B) (i : nat) (l : list A) :
  NoDup (map f l) -> NoDup (map f (splice1 i l)).
Proof.
  unfold splice1. revert i. induction l as [|x l IH]; intros i Hnd.
  - destruct i; cbn; constructor.
  - inversion Hnd as [|? ? Hnot Hnd']; subst. destruct i; cbn.
    + exact Hnd'.
    + constructor; [|now apply IH].
      intros Hin. apply Hnot. apply in_map_iff in Hin.
      destruct Hin as (y & Hy & Hin). apply in_map_iff. exists y.
      split; [exact Hy|]. now apply (In_splice1 i).
Qed.

Lemma existsb_socket_false (s : SocketId) (l : list Player) :
  existsb (fun p => String.eqb (socketId p) s) l = false ->
  ~ In s (map socketId l).
Proof.
  induction l as [|p l IH]; cbn; [tauto|].
  destruct (String.eqb (socketId p) s) eqn:Hp; cbn; [discriminate|].
  intros Hrest [Heq|Hin]; [|now apply IH].
  rewrite Heq, String.eqb_refl in Hp. discriminate.
Qed.

Lemma NoDup_snoc {A : Type} (l : list A) (x : A) :
  NoDup l -> ~ In x l -> NoDup (l ++ [x]).
Proof.
  induction l as [|y l IH]; cbn; intros Hnd Hnot.
  - constructor; [tauto | constructor].
  - inversion Hnd as [|? ? Hy Hnd']; subst. constructor.
    + intros Hin. apply in_app_or in Hin. destruct Hin as [Hin|[Heq|[]]].
      * contradiction.
      * subst. tauto.
    + apply IH; tauto.
Qed.

Lemma handle_keeps_rooms_in_shape (ev : Event E) (st st' : Server E) out :
  handle ev st = Normal st' out -> rooms_in_shape st -> rooms_in_shape st'.
Proof.
  intros Hstep Hshape.
  destruct ev as [s name|s ack uuid now|s args ack now|s data now|s data now
                 |s now|s ack|now]; cbn [handle] in Hstep.
  - inversion Hstep; subst. exact Hshape.
  - unfold on_createRoom, callback, callback_in_catch, try_catch in Hstep.
    destruct ack; cbv beta iota zeta in Hstep; [|discriminate].
    inversion Hstep; subst. clear Hstep.
    intros r room Hin. cbn in Hin. apply In_set in Hin.
    destruct Hin as [[-> ->]|Hin]; [|now apply Hshape].
    repeat split; cbn; try lia. constructor; [tauto | constructor].
  - apply on_joinRoom_outcome in Hstep.
    destruct Hstep as [[-> _]|(r & room & _ & Hr & Hlen & Hnew & -> & _)];
      [exact Hshape|].
    intros r' room' Hin. unfold socket_join in Hin. cbn [rooms] in Hin.
    rewrite activate_game_rooms in Hin. cbn [rooms with_rooms] in Hin.
    apply In_set in Hin. destruct Hin as [[-> ->]|Hin]; [|now apply Hshape].
    destruct (Hshape _ _ (get_In _ _ Hr)) as (Hid & Hsize & Hnd).
    repeat split; cbn [push_player roomId players].
    + exact Hid.
    + rewrite length_app. cbn. lia.
    + rewrite length_app. cbn. lia.
    + rewrite map_app. cbn. apply NoDup_snoc; [exact Hnd|].
      now apply existsb_socket_false.
  - destruct data as [d|]; [|inversion Hstep; subst; exact Hshape].
    pose proof (on_move_by_cases st s d now) as Hc.
    destruct (submitMove_failure st s d).
    + rewrite Hc in Hstep. inversion Hstep; subst. exact Hshape.
    + destruct Hc as (room & game & player & c' & result & Hacc).
      rewrite (on_move_accepted now Hacc) in Hstep.
      inversion Hstep; subst. clear Hstep.
      intros r' room' Hin. cbn [rooms] in Hin. apply In_set in Hin.
      destruct Hin as [[-> ->]|Hin]; [|now apply Hshape].
      destruct Hacc as (Hr & _). exact (Hshape _ _ (get_In _ _ Hr)).
  - apply on_gameReset_outcome in Hstep.
    destruct Hstep as [[-> _]|(r & room & game & _ & Hr & _ & -> & _)];
      [exact Hshape|].
    intros r' room' Hin. cbn [rooms] in Hin. apply In_set in Hin.
    destruct Hin as [[-> ->]|Hin]; [|now apply Hshape].
    exact (Hshape _ _ (get_In _ _ Hr)).
  - destruct (on_disconnect_outcome s now (leave_all s st))
      as [[_ Hrun]|(r & room & i & p & Hfirst & _ & _ & Hrun)];
      rewrite Hrun in Hstep; inversion Hstep; subst; [exact Hshape|].
    clear Hstep Hrun. apply first_room_of_In in Hfirst.
    destruct (Hshape _ _ Hfirst) as (Hid & Hsize & Hnd).
    assert (Hleft : forall r' room',
               In (r', room')
                  (JsMap.set r (remove_player room i now) (rooms st)) ->
               (r' = r /\ room' = remove_player room i now) \/
               room_in_shape r' room').
    { intros r' room' Hin. apply In_set in Hin.
      destruct Hin as [?|Hin]; [now left | right; now apply Hshape]. }
    intros r' room' Hin.
    unfold cleanupRoom, with_rooms in Hin. cbn [rooms games] in Hin.
    rewrite get_set_same in Hin.
    destruct (Nat.eqb (List.length (players (remove_player room i now))) 0)
             eqn:Hempty; cbn [rooms] in Hin.
    + pose proof (In_delete_key _ _ Hin) as Hne. apply In_delete in Hin.
      destruct (Hleft _ _ Hin) as [[-> _]|Hok]; [congruence | exact Hok].
    + destruct (Hleft _ _ Hin) as [[-> ->]|Hok]; [|exact Hok].
      apply Nat.eqb_neq in Hempty. unfold room_in_shape.
      cbn [remove_player players roomId] in *.
      pose proof (splice1_length i (players room)).
      split; [exact Hid|]. split; [lia|]. now apply NoDup_map_splice1.
  - unfold on_ping in Hstep. destruct ack; inversion Hstep; subst; exact Hshape.
  - inversion Hstep; subst. intros r room Hin. apply Hshape.
    unfold sweep in Hin. now apply (sweep_fold_subset now (rooms st) st).
Qed.

Lemma reachable_rooms_in_shape (st : Server E) :
  reachable st -> rooms_in_shape st.
Proof.
  induction 1 as [|ev st st' out _ IH Hstep].
  - intros r room [].
  - exact (handle_keeps_rooms_in_shape _ Hstep IH).
Qed.

(** X3: in every state the process can reach, a room found under an id
    carries that id, has one or two players, and lists no socket twice. *)
Theorem registered_room_in_shape (st : Server E) (r : RoomId) (room : Room) :
  reachable st ->
  JsMap.get r (rooms st) = Some room ->
  roomId room = r /\
  1 <= List.length (players room) <= 2 /\
  NoDup (map socketId (players room)).
Proof.
  intros Hreach Hr.
  exact (reachable_rooms_in_shape Hreach _ _ (get_In _ _ Hr)).
Qed.

Lemma reachable_history_counted (st : Server E) :
  reachable st -> history_counted st.
Proof.
  induction 1 as [|ev st st' out _ IH Hstep].
  - intros r game [].
  - intros r game Hin.
    destruct (handle_games _ _ Hstep _ _ Hin)
      as [Hold|[->|[(g0 & H0 & ->)|[(g0 & c' & res & pl & now & H0 & ->)
                                   |(g0 & H0 & ->)]]]].
    + now apply (IH r).
    + reflexivity.
    + cbn. now apply (IH r).
    + cbn. rewrite length_app. cbn. rewrite <- (IH r g0 H0). lia.
    + reflexivity.
Qed.

(** X4: in every state the process can reach, the history of a game has
    exactly [moveCount] records. *)
Theorem history_length_is_moveCount (st : Server E) (r : RoomId) (game : Game E) :
  reachable st ->
  JsMap.get r (games st) = Some game ->
  N.of_nat (List.length (history game)) = moveCount game.
Proof.
  intros Hreach Hg.
  exact (reachable_history_counted Hreach _ _ (get_In _ _ Hg)).
Qed.

(** ** Joining a room *)

Lemma activate_game_games (r : RoomId) (st : Server E) (r' : RoomId) :
  JsMap.get r' (games (activate_game r st)) =
  if String.eqb r' r
  then option_map (fun game => set_gameState game active) (JsMap.get r (games st))
  else JsMap.get r' (games st).
Proof.
  unfold activate_game.
  destruct (JsMap.get r (games st)) as [game|] eqn:Hg; cbn [games with_games].
  - rewrite get_set. destruct (String.eqb r' r); reflexivity.
  - destruct (String.eqb r' r) eqn:Hr; [|reflexivity].
    apply String.eqb_eq in Hr. subst. exact Hg.
Qed.

(** X5: a [joinRoom] that completes either refuses, leaving the state as
    it was and answering the requester alone, or adds the requester as the
    last player, black, of the room named; the room becomes ready with the
    time of the request, its game becomes active with board, count and
    history as they were, and no other room or game changes. *)
Theorem joinRoom_refuses_or_joins
        (s : SocketId) (args : option RoomId) (ack : bool) (now : Timestamp)
        (st st' : Server E) out :
  on_joinRoom s args ack now st = Normal st' out ->
  (st' = st /\
   exists message, out = [Ack s (PFailure message)] /\
                   recipients st' (Ack s (PFailure message)) = [s]) \/
  (exists r room room',
      args = Some r /\
      JsMap.get r (rooms st) = Some room /\
      JsMap.get r (rooms st') = Some room' /\
      players room' =
        (players room ++ [mkPlayer s (username_or_anonymous st s) black false])%list /\
      status room' = status_ready /\
      lastActivity room' = now /\
      JsMap.get r (games st') =
        option_map (fun game => set_gameState game active)
                   (JsMap.get r (games st)) /\
      (forall r', r' <> r ->
                  JsMap.get r' (rooms st') = JsMap.get r' (rooms st) /\
                  JsMap.get r' (games st') = JsMap.get r' (games st)) /\
      joined st' = (s, r) :: joined st /\
      out = [Ack s (PRoom room'); SocketTo s r "opponentJoined" (PRoom room')]).
Proof.
  intros H. apply on_joinRoom_outcome in H.
  destruct H as [[-> (message & ->)]|(r & room & -> & Hr & _ & _ & -> & ->)].
  - left. split; [reflexivity|]. exists message. now split.
  - right. eexists r, room, _. split; [reflexivity|]. split; [exact Hr|].
    unfold socket_join. cbn [rooms games joined].
    rewrite activate_game_rooms, activate_game_joined.
    cbn [rooms with_rooms joined]. rewrite get_set_same.
    split; [reflexivity|]. split; [reflexivity|]. split; [reflexivity|].
    split; [reflexivity|]. split.
    { rewrite activate_game_games, String.eqb_refl. reflexivity. }
    split; [|split; reflexivity].
    intros r' Hne. split; [now apply get_set_other|].
    rewrite activate_game_games. apply String.eqb_neq in Hne. now rewrite Hne.
Qed.

(** X6: [joinRoom] answers "Room not found" for an id that is not in the
    registry and "Room is full" for a room of two players or more, whoever
    asks; a payload that cannot be read is answered "Failed to join room";
    in each case the state stays as it was. *)
Theorem joinRoom_unknown_or_full
        (s : SocketId) (now : Timestamp) (st : Server E) :
  (forall r, JsMap.get r (rooms st) = None ->
             on_joinRoom s (Some r) true now st =
             Normal st [Ack s (PFailure "Room not found")]) /\
  (forall r room, JsMap.get r (rooms st) = Some room ->
                  2 <= List.length (players room) ->
                  on_joinRoom s (Some r) true now st =
                  Normal st [Ack s (PFailure "Room is full")]) /\
  on_joinRoom s None true now st = Normal st [Ack s (PFailure "Failed to join room")].
Proof.
  unfold on_joinRoom, try_catch, callback, callback_in_catch.
  split; [|split].
  - intros r Hr. rewrite Hr. reflexivity.
  - intros r room Hr Hlen. rewrite Hr.
    apply Nat.leb_le in Hlen. rewrite Hlen. reflexivity.
  - reflexivity.
Qed.

(** X7: when a socket joins a room in a state the process has reached,
    the [opponentJoined] notice is addressed to every player who was in
    the room and whose connection is open, and not to the socket that
    joined, which gets the room through its callback. *)
Theorem join_notice_reaches_the_other_player
        (evs : list (Event E)) (s : SocketId) (r : RoomId) (now : Timestamp)
        (st : Server E) (room : Room) :
  reached evs st ->
  JsMap.get r (rooms st) = Some room ->
  List.length (players room) < 2 ->
  existsb (fun p => String.eqb (socketId p) s) (players room) = false ->
  exists st' room',
    on_joinRoom s (Some r) true now st =
      Normal st' [Ack s (PRoom room');
                  SocketTo s r "opponentJoined" (PRoom room')] /\
    JsMap.get r (rooms st') = Some room' /\
    (forall p, In p (players room) -> still_open evs (socketId p) = true ->
               In (socketId p)
                  (recipients st' (SocketTo s r "opponentJoined" (PRoom room')))) /\
    ~ In s (recipients st' (SocketTo s r "opponentJoined" (PRoom room'))).
Proof.
  intros Hreach Hr Hlen Hnew.
  unfold on_joinRoom, try_catch, callback, bind. rewrite Hr.
  apply Nat.leb_gt in Hlen. rewrite Hlen, Hnew. cbv beta iota zeta.
  eexists _, _. split; [reflexivity|].
  unfold socket_join. cbn [rooms]. rewrite activate_game_rooms.
  cbn [rooms with_rooms]. rewrite get_set_same. split; [reflexivity|].
  cbn [recipients]. unfold members. cbn [joined].
  rewrite activate_game_joined. cbn [joined with_rooms]. split.
  - intros p Hp Hopen. apply filter_In. split.
    + apply in_map_iff. exists (socketId p, r). split; [reflexivity|].
      apply filter_In. split; [|cbn; apply String.eqb_refl].
      right. exact (reached_players_joined Hreach _ _ p (get_In _ _ Hr) Hp Hopen).
    + apply existsb_socket_false in Hnew.
      destruct (String.eqb (socketId p) s) eqn:Hps; [|reflexivity].
      apply String.eqb_eq in Hps. exfalso. apply Hnew.
      apply in_map_iff. exists p. now split.
  - intros Hin. apply filter_In in Hin. destruct Hin as [_ Hin].
    rewrite String.eqb_refl in Hin. discriminate.
Qed.

(** X8: after [createRoom] by one socket and [joinRoom] with the returned
    id by another, the room has exactly these two players, the first
    white and the second black, it is ready, and its game is active on
    the initial board with no move made; this holds from any state. *)
Theorem create_then_join_pairs_two_players
        (a b : SocketId) (uuid : string) (t1 t2 : Timestamp) (st : Server E) :
  a <> b ->
  exists st1 st2 room,
    on_createRoom a true uuid t1 st =
      Normal st1 [Ack a (PRoomId (generateRoomId uuid))] /\
    on_joinRoom b (Some (generateRoomId uuid)) true t2 st1 =
      Normal st2 [Ack b (PRoom room);
                  SocketTo b (generateRoomId uuid) "opponentJoined" (PRoom room)] /\
    JsMap.get (generateRoomId uuid) (rooms st2) = Some room /\
    players room = [mkPlayer a (username_or_anonymous st a) white false;
                    mkPlayer b (username_or_anonymous st b) black false] /\
    status room = status_ready /\
    JsMap.get (generateRoomId uuid) (games st2) =
      Some (mkGame (newChess E) active white 0%N []).
Proof.
  intros Hab.
  eexists _, _, _. split; [reflexivity|].
  unfold on_joinRoom, try_catch, callback, bind, socket_join, with_rooms, with_games.
  cbn [rooms games socketData joined]. rewrite get_set_same.
  cbn [players List.length Nat.leb existsb socketId].
  apply String.eqb_neq in Hab. rewrite Hab. cbv beta iota zeta.
  split; [reflexivity|].
  cbn [rooms]. rewrite activate_game_rooms. cbn [rooms]. rewrite get_set_same.
  split; [reflexivity|]. split; [reflexivity|]. split; [reflexivity|].
  cbn [games]. rewrite activate_game_games, String.eqb_refl.
  cbn [games]. rewrite get_set_same. reflexivity.
Qed.

(** ** The sweep of inactive rooms *)

Lemma sweep_fold_get (now : Timestamp) (l : list (RoomId * Room)) (acc : Server E)
      (r : RoomId) :
  let hit := existsb (fun e : RoomId * Room =>
                        String.eqb r (fst e) && inactive now (snd e)) l in
  JsMap.get r (rooms (fold_left (sweep_entry now) l acc)) =
    (if hit then None else JsMap.get r (rooms acc)) /\
  JsMap.get r (games (fold_left (sweep_entry now) l acc)) =
    (if hit then None else JsMap.get r (games acc)).
Proof.
  cbv zeta. revert acc. induction l as [|e l IH]; intros acc; cbn [fold_left existsb].
  - split; reflexivity.
  - destruct (IH (sweep_entry now acc e)) as [IHr IHg]. rewrite IHr, IHg.
    match goal with
    | |- context [existsb ?f l] => generalize (existsb f l)
    end.
    intros hit.
    change (sweep_entry now acc e)
      with (if inactive now (snd e)
            then mkServer (JsMap.delete (fst e) (rooms acc))
                          (JsMap.delete (fst e) (games acc))
                          (socketData acc) (joined acc)
            else acc).
    destruct (inactive now (snd e));
      cbn [rooms games]; rewrite ?get_delete;
      destruct (String.eqb r (fst e)); cbn [andb orb];
      destruct hit; split; reflexivity.
Qed.

Lemma existsb_unique_key {V : Type} (f : V -> bool) (r : string) (m : JsMap.t V) :
  NoDup (map fst m) ->
  existsb (fun e => String.eqb r (fst e) && f (snd e)) m =
  match JsMap.get r m with Some v => f v | None => false end.
Proof.
  induction m as [|[k v] m IH]; cbn; [reflexivity|].
  intros Hnd. inversion Hnd as [|? ? Hnot Hnd']; subst.
  destruct (String.eqb r k) eqn:Hrk; cbn.
  - apply String.eqb_eq in Hrk. subst k.
    apply get_None_keys in Hnot. rewrite (IH Hnd'), Hnot.
    now rewrite Bool.orb_false_r.
  - now apply IH.
Qed.

(** X9: in a state the process can reach, the sweep deletes the room and
    the game of every id whose room has been inactive for more than
    thirty minutes, and leaves every other room and game, the usernames
    and the group memberships as they were. *)
Theorem sweep_removes_exactly_inactive (now : Timestamp) (st : Server E) :
  reachable st ->
  (forall r,
      JsMap.get r (rooms (sweep now st)) =
        match JsMap.get r (rooms st) with
        | Some room => if inactive now room then None else Some room
        | None => None
        end /\
      JsMap.get r (games (sweep now st)) =
        match JsMap.get r (rooms st) with
        | Some room => if inactive now room then None else JsMap.get r (games st)
        | None => JsMap.get r (games st)
        end) /\
  socketData (sweep now st) = socketData st /\
  joined (sweep now st) = joined st.
Proof.
  intros Hreach. destruct (reachable_keys_unique Hreach) as [Hnd _].
  split.
  - intros r. unfold sweep.
    destruct (sweep_fold_get now (rooms st) st r) as [Hr Hg]. rewrite Hr, Hg.
    assert (Hhit :
      existsb (fun e : RoomId * Room =>
                 String.eqb r (fst e) && inactive now (snd e)) (rooms st) =
      match JsMap.get r (rooms st) with
      | Some room => inactive now room
      | None => false
      end) by exact (@existsb_unique_key Room (inactive now) r (rooms st) Hnd).
    rewrite Hhit.
    destruct (JsMap.get r (rooms st)) as [room|]; [|split; reflexivity].
    destruct (inactive now room); split; reflexivity.
  - unfold sweep. split.
    + generalize (rooms st) as l. generalize st as acc.
      intros acc l. revert acc. induction l as [|e l IH]; intros acc; cbn [fold_left];
        [reflexivity|].
      rewrite IH. unfold sweep_entry.
      match goal with
      | |- context [if ?c then _ else _] => destruct c
      end; reflexivity.
    + apply (sweep_fold_subset now (rooms st) st).
Qed.

(** ** Disconnection *)

Lemma findIndex_None {A : Type} (f : A -> bool) (l : list A) :
  (forall x, In x l -> f x = false) -> findIndex f l = None.
Proof.
  induction l as [|y l IH]; cbn; [reflexivity|].
  intros H. rewrite (H y (or_introl eq_refl)).
  rewrite IH; [reflexivity|]. intros x Hx. apply H. now right.
Qed.

(** X10: the disconnection of a socket that is not a player of any room
    changes nothing and emits nothing. *)
Theorem disconnect_of_stranger_changes_nothing
        (s : SocketId) (now : Timestamp) (st : Server E) :
  (forall r room, In (r, room) (rooms st) ->
                  ~ In s (map socketId (players room))) ->
  on_disconnect s now st = Normal st [].
Proof.
  intros Hnone. unfold on_disconnect.
  assert (Hfirst : first_room_of s (rooms st) = None).
  { induction (rooms st) as [|[r room] rest IH]; cbn; [reflexivity|].
    rewrite findIndex_None.
    - apply IH. intros r' room' Hin. apply (Hnone r'). now right.
    - intros p Hp. apply String.eqb_neq. intros Heq.
      apply (Hnone r room (or_introl eq_refl)).
      apply in_map_iff. exists p. now split. }
  rewrite Hfirst. reflexivity.
Qed.

Lemma splice1_at {A : Type} (l : list A) (i : nat) (p : A) :
  nth_error l i = Some p ->
  S (List.length (splice1 i l)) = List.length l /\
  forall q, In q l -> q = p \/ In q (splice1 i l).
Proof.
  intros Hp. split.
  - assert (Hlt : i < List.length l).
    { apply nth_error_Some. congruence. }
    unfold splice1. rewrite length_app, length_firstn, length_skipn. lia.
  - unfold splice1. revert i Hp. induction l as [|x l IH]; intros i Hp q Hq.
    + destruct Hq.
    + destruct i.
      * cbn in Hp. inversion Hp; subst.
        destruct Hq as [->|Hq]; [now left | now right].
      * destruct Hq as [->|Hq]; [right; now left|].
        destruct (IH i Hp q Hq) as [->|Hq']; [now left | right; now right].
Qed.

Lemma splice1_drops_key {A B : Type} (g : A -> B) (l : list A) (i : nat) (p : A) :
  NoDup (map g l) -> nth_error l i = Some p -> ~ In (g p) (map g (splice1 i l)).
Proof.
  unfold splice1. revert i. induction l as [|x l IH]; intros i Hnd; destruct i; cbn;
    try discriminate; inversion Hnd as [|? ? Hnot Hnd']; subst.
  - intros H. inversion H; subst. exact Hnot.
  - intros H [Heq|Hin]; [|now apply (IH i Hnd' H)].
    apply Hnot. rewrite Heq. apply in_map. eapply nth_error_In. exact H.
Qed.

(** X11: in a state the process can reach, when a socket disconnects and
    the first room that lists it has another player, the socket is taken
    out of that room, the other player stays, the room keeps its game and
    gets the time of the disconnection, a [playerDisconnected] notice with
    the player removed and the number of players left is emitted to the
    room's group without the socket, and no other room changes. *)
Theorem disconnect_keeps_room_for_other_player
        (s : SocketId) (now : Timestamp) (st : Server E) (r : RoomId)
        (room : Room) (i : nat) :
  reachable st ->
  first_room_of s (rooms st) = Some (r, room, i) ->
  2 <= List.length (players room) ->
  exists st' p room',
    on_disconnect s now st =
      Normal st' [SocketTo s r "playerDisconnected" (PPlayerDisconnected p 1)] /\
    socketId p = s /\
    In p (players room) /\
    JsMap.get r (rooms st') = Some room' /\
    List.length (players room') = 1 /\
    ~ In s (map socketId (players room')) /\
    (forall q, In q (players room) -> q = p \/ In q (players room')) /\
    lastActivity room' = now /\
    games st' = games st /\
    (forall r', r' <> r -> JsMap.get r' (rooms st') = JsMap.get r' (rooms st)).
Proof.
  intros Hreach Hfirst Hlen.
  destruct (on_disconnect_outcome s now st)
    as [[Hnone _]|(r0 & room0 & i0 & p & Hfirst0 & Hp & Hs & Hrun)];
    [congruence|].
  rewrite Hfirst in Hfirst0. inversion Hfirst0; subst r0 room0 i0. clear Hfirst0.
  destruct (reachable_rooms_in_shape Hreach _ _ (first_room_of_In _ _ Hfirst))
    as (_ & Hsize & Hnd).
  destruct (splice1_at _ _ Hp) as [Hcount Hkept].
  assert (Hone : List.length (players (remove_player room i now)) = 1).
  { cbn [remove_player players]. lia. }
  rewrite Hrun, Hone. cbn [Nat.ltb Nat.leb].
  unfold cleanupRoom, with_rooms. cbn [rooms games socketData joined].
  rewrite get_set_same, Hone. cbn [Nat.eqb].
  eexists _, p, _. split; [reflexivity|].
  split; [exact Hs|]. split; [eapply nth_error_In; exact Hp|].
  cbn [rooms games]. rewrite get_set_same.
  split; [reflexivity|]. split; [exact Hone|].
  split; [rewrite <- Hs; now apply splice1_drops_key|].
  split; [exact Hkept|]. split; [reflexivity|]. split; [reflexivity|].
  intros r' Hne. now apply get_set_other.
Qed.

(** X12: in a state the process can reach no room is empty, so
    [cleanupRoom] changes nothing whatever id it is called with; it only
    deletes a room inside the disconnection that has just emptied it. *)
Theorem cleanupRoom_idle_between_events (st : Server E) (r : RoomId) :
  reachable st -> cleanupRoom r st = st.
Proof.
  intros Hreach. unfold cleanupRoom.
  destruct (JsMap.get r (rooms st)) as [room|] eqn:Hr; [|reflexivity].
  pose proof (reachable_rooms_inhabited Hreach _ _ (get_In _ _ Hr)) as Hne.
  destruct (players room); [congruence | reflexivity].
Qed.


(** ** The move handler and the registries *)

(** X14: whatever the payload and the outcome, a [move] event leaves the
    usernames, the group memberships and every room and game other than
    the one it names as they were, and in the room it names it changes
    neither the id, the players, the status nor the time of creation. *)
Theorem move_touches_only_its_room
        (s : SocketId) (d : MoveData E) (now : Timestamp) (st st' : Server E) out :
  on_move s (Some d) now st = Normal st' out ->
  socketData st' = socketData st /\
  joined st' = joined st /\
  (forall r, r <> md_room d ->
             JsMap.get r (rooms st') = JsMap.get r (rooms st) /\
             JsMap.get r (games st') = JsMap.get r (games st)) /\
  (forall room, JsMap.get (md_room d) (rooms st) = Some room ->
                exists room',
                  JsMap.get (md_room d) (rooms st') = Some room' /\
                  roomId room' = roomId room /\
                  players room' = players room /\
                  status room' = status room /\
                  created room' = created room).
Proof.
  pose proof (on_move_by_cases st s d now) as Hc.
  destruct (submitMove_failure st s d).
  - rewrite Hc. intros H. inversion H; subst.
    repeat split; try reflexivity. intros room Hr. exists room. now repeat split.
  - destruct Hc as (room & game & player & c' & result & Hacc).
    rewrite (on_move_accepted now Hacc). intros H. inversion H; subst. clear H.
    cbn [socketData joined rooms games].
    split; [reflexivity|]. split; [reflexivity|]. split.
    + intros r Hne. split; now apply get_set_other.
    + intros room0 Hr0. destruct Hacc as (Hr & _).
      rewrite Hr in Hr0. inversion Hr0; subst room0.
      exists (touch room now). rewrite get_set_same. now repeat split.
Qed.

(** X15: every game update that a handler emits is addressed to the group
    of a room whose game is stored, under the event name [gameUpdate], and
    carries the board, the current turn and the move count of that stored
    game as the handler leaves it. *)
Theorem game_update_reports_stored_game
        (ev : Event E) (st st' : Server E) out
        (r : RoomId) (name : string) (u : GameUpdate E) :
  handle ev st = Normal st' out ->
  In (IoTo r name (PGameUpdate u)) out ->
  name = "gameUpdate" /\
  exists game,
    JsMap.get r (games st') = Some game /\
    u_fen u = fen E (chess game) /\
    u_currentTurn u = currentTurn game /\
    u_moveCount u = moveCount game.
Proof.
  destruct ev as [s nm|s ack uuid now|s args ack now|s data now|s data now
                 |s now|s ack|now]; cbn [handle].
  - intros H. inversion H; subst. intros [].
  - unfold on_createRoom, callback, callback_in_catch, try_catch.
    destruct ack; cbv beta iota zeta; [|discriminate].
    intros H. inversion H; subst. intros [Hin|[]]. discriminate Hin.
  - intros H. apply on_joinRoom_outcome in H.
    destruct H as [[-> (message & ->)]|(r0 & room & _ & _ & _ & _ & -> & ->)].
    + intros [Hin|[]]. discriminate Hin.
    + intros [Hin|[Hin|[]]]; discriminate Hin.
  - destruct data as [d|].
    + pose proof (on_move_by_cases st s d now) as Hc.
      destruct (submitMove_failure st s d).
      * rewrite Hc. intros H. inversion H; subst.
        intros [Hin|[]]. discriminate Hin.
      * destruct Hc as (room & game & player & c' & result & Hacc).
        rewrite (on_move_accepted now Hacc). intros H. inversion H; subst. clear H.
        intros [Hin|[Hin|[]]]; [discriminate Hin|].
        inversion Hin; subst. split; [reflexivity|].
        eexists. cbn [games]. rewrite get_set_same.
        split; [reflexivity|]. now repeat split.
    + intros H. inversion H; subst. intros [Hin|[]]. discriminate Hin.
  - intros H. apply on_gameReset_outcome in H.
    destruct H as [[-> ->]|(r0 & room & game & _ & _ & _ & -> & ->)];
      [intros []|].
    intros [Hin|[Hin|[]]]; [discriminate Hin|].
    inversion Hin; subst. split; [reflexivity|].
    eexists. cbn [games]. rewrite get_set_same.
    split; [reflexivity|]. now repeat split.
  - destruct (on_disconnect_outcome s now (leave_all s st))
      as [[_ Hrun]|(r0 & room & i & p & _ & _ & _ & Hrun)];
      rewrite Hrun; intros H; inversion H; subst; [intros []|].
    destruct (Nat.ltb 0 _); [|intros []].
    intros [Hin|[]]. discriminate Hin.
  - unfold on_ping. destruct ack; intros H; inversion H; subst;
      [intros [Hin|[]]; discriminate Hin | intros []].
  - intros H. inversion H; subst. intros [].
Qed.


(** ** Usernames *)

(** X16: the [username] event changes neither the rooms nor the games, so
    a name already written in a room stays; the name it records is the one
    a later [createRoom] of the same socket writes in the new room, with
    "Anonymous" in place of the empty name. *)
Theorem username_names_later_room
        (s : SocketId) (name uuid : string) (now : Timestamp) (st : Server E) :
  exists st1 st2,
    on_username s name st = Normal st1 [] /\
    rooms st1 = rooms st /\
    games st1 = games st /\
    on_createRoom s true uuid now st1 =
      Normal st2 [Ack s (PRoomId (generateRoomId uuid))] /\
    option_map players (JsMap.get (generateRoomId uuid) (rooms st2)) =
      Some [mkPlayer s (if String.eqb name "" then "Anonymous" else name)
                     white false].
Proof.
  eexists _, _. split; [reflexivity|]. split; [reflexivity|].
  split; [reflexivity|]. split; [reflexivity|].
  unfold socket_join, with_rooms, with_games, username_or_anonymous.
  cbn [rooms games socketData]. rewrite !get_set_same. reflexivity.
Qed.

(** ** The HTTP routes *)

(** X17: in a state the process can reach, [GET /api/rooms] lists each
    room of the registry once: [total] is the number of rooms that
    [GET /] reports as [activeRooms], no id is listed twice, an entry is
    listed exactly when it is the summary of the room found under its id,
    and every player count is one or two. *)
Theorem api_rooms_lists_registry (st : Server E) :
  reachable st ->
  snd (api_rooms st) = activeRooms st /\
  NoDup (map s_roomId (fst (api_rooms st))) /\
  (forall x, In x (fst (api_rooms st)) <->
             exists room, JsMap.get (s_roomId x) (rooms st) = Some room /\
                          x = summary_of room) /\
  (forall x, In x (fst (api_rooms st)) -> 1 <= s_playerCount x <= 2).
Proof.
  intros Hreach.
  destruct (reachable_keys_unique Hreach) as [Hnd _].
  pose proof (reachable_rooms_in_shape Hreach) as Hshape.
  unfold api_rooms, roomList, activeRooms. cbn [fst snd].
  assert (Hentry : forall x,
             In x (map summary_of (map snd (rooms st))) <->
             exists r room, In (r, room) (rooms st) /\ x = summary_of room).
  { intros x. rewrite map_map, in_map_iff. split.
    - intros ([r room] & <- & Hin). now exists r, room.
    - intros (r & room & Hin & ->). now exists (r, room). }
  split; [now rewrite !length_map|]. split; [|split].
  - rewrite !map_map.
    rewrite (map_ext_in _ fst); [exact Hnd|].
    intros [r room] Hin. cbn. apply (Hshape r room Hin).
  - intros x. rewrite Hentry. split.
    + intros (r & room & Hin & ->). exists room. split; [|reflexivity].
      cbn [summary_of s_roomId]. destruct (Hshape r room Hin) as (-> & _).
      now apply In_get_unique.
    + intros (room & Hr & ->). exists (roomId room), room.
      split; [|reflexivity]. apply get_In. exact Hr.
  - intros x Hx. apply Hentry in Hx. destruct Hx as (r & room & Hin & ->).
    cbn. apply (Hshape r room Hin).
Qed.

End Coverage.

(** ** Room identifiers *)

Lemma substring_length (n : nat) (s : string) :
  String.length (substring 0 n s) = Nat.min n (String.length s).
Proof.
  revert s. induction n as [|n IH]; intros s.
  - destruct s; reflexivity.
  - destruct s as [|c s]; cbn; [reflexivity|]. now rewrite IH.
Qed.

Lemma toUpperCase_length (s : string) :
  String.length (toUpperCase s) = String.length s.
Proof. induction s as [|c s IH]; cbn; [reflexivity | now rewrite IH]. Qed.

Lemma upper_ascii_not_lower (c : ascii) :
  ~ (97 <= N_of_ascii (upper_ascii c) <= 122)%N.
Proof.
  unfold upper_ascii.
  destruct ((97 <=? N_of_ascii c)%N && (N_of_ascii c <=? 122)%N) eqn:Hlow.
  - apply andb_prop in Hlow. destruct Hlow as [H1 H2].
    apply N.leb_le in H1. apply N.leb_le in H2.
    rewrite N_ascii_embedding; lia.
  - intros [H1 H2]. apply N.leb_le in H1. apply N.leb_le in H2.
    rewrite H1, H2 in Hlow. discriminate.
Qed.

Lemma upper_ascii_idempotent (c : ascii) :
  upper_ascii (upper_ascii c) = upper_ascii c.
Proof.
  pose proof (upper_ascii_not_lower c) as Hnot.
  unfold upper_ascii at 1.
  destruct ((97 <=? N_of_ascii (upper_ascii c))%N
            && (N_of_ascii (upper_ascii c) <=? 122)%N) eqn:Hlow; [|reflexivity].
  apply andb_prop in Hlow. destruct Hlow as [H1 H2].
  apply N.leb_le in H1. apply N.leb_le in H2. exfalso. apply Hnot. lia.
Qed.

(** X1: a room id has the length of the uuid it is cut from, at most
    eight characters, hence eight for a uuid; it holds no letter [a-z], and
    upper-casing it again gives the same id. *)
Theorem generateRoomId_shape (uuid : string) :
  String.length (generateRoomId uuid) = Nat.min 8 (String.length uuid) /\
  (forall c, In c (list_ascii_of_string (generateRoomId uuid)) ->
             ~ (97 <= N_of_ascii c <= 122)%N) /\
  toUpperCase (generateRoomId uuid) = generateRoomId uuid.
Proof.
  unfold generateRoomId. split; [|split].
  - now rewrite toUpperCase_length, substring_length.
  - generalize (substring 0 8 uuid) as s.
    induction s as [|c s IH]; cbn; [tauto|].
    intros c0 [<-|Hin]; [apply upper_ascii_not_lower | now apply IH].
  - generalize (substring 0 8 uuid) as s.
    induction s as [|c s IH]; cbn; [reflexivity|].
    now rewrite upper_ascii_idempotent, IH.
Qed.

(** ** The further properties on concrete sessions *)

Lemma room_and_game_share_lifecycle_witness :
  JsMap.get room1 (rooms (after started)) = None <->
  JsMap.get room1 (games (after started)) = None.
Proof.
  apply (@room_and_game_share_lifecycle E (after started)).
  apply after_reachable. discriminate.
Defined.

Lemma registered_room_in_shape_witness :
  roomId paired_room = room1 /\
  1 <= List.length (players paired_room) <= 2 /\
  NoDup (map socketId (players paired_room)).
Proof.
  apply (@registered_room_in_shape E (after paired) room1 paired_room).
  - apply after_reachable. discriminate.
  - reflexivity.
Defined.

Lemma history_length_is_moveCount_witness :
  N.of_nat (List.length (history before_mate_game)) = moveCount before_mate_game.
Proof.
  apply (@history_length_is_moveCount E (after before_mate) room1 before_mate_game).
  - apply after_reachable. discriminate.
  - reflexivity.
Defined.

Lemma joinRoom_refuses_or_joins_witness :
  (after paired = after bob_named /\
   exists message,
     [Ack bob (PRoom paired_room);
      SocketTo bob room1 "opponentJoined" (PRoom (E := E) paired_room)]
       = [Ack bob (PFailure message)] /\
     recipients (after paired) (Ack bob (PFailure (E := E) message)) = [bob]) \/
  (exists r room room',
      Some room1 = Some r /\
      JsMap.get r (rooms (after bob_named)) = Some room /\
      JsMap.get r (rooms (after paired)) = Some room' /\
      players room' =
        (players room
           ++ [mkPlayer bob (username_or_anonymous (after bob_named) bob)
                        black false])%list /\
      status room' = status_ready /\
      lastActivity room' = 2000%Z /\
      JsMap.get r (games (after paired)) =
        option_map (fun game => set_gameState game active)
                   (JsMap.get r (games (after bob_named))) /\
      (forall r', r' <> r ->
                  JsMap.get r' (rooms (after paired))
                    = JsMap.get r' (rooms (after bob_named)) /\
                  JsMap.get r' (games (after paired))
                    = JsMap.get r' (games (after bob_named))) /\
      joined (after paired) = (bob, r) :: joined (after bob_named) /\
      [Ack bob (PRoom paired_room);
       SocketTo bob room1 "opponentJoined" (PRoom (E := E) paired_room)]
        = [Ack bob (PRoom room'); SocketTo bob r "opponentJoined" (PRoom room')]).
Proof.
  apply (@joinRoom_refuses_or_joins E bob (Some room1) true 2000%Z
           (after bob_named) (after paired)).
  reflexivity.
Defined.

Lemma join_notice_reaches_the_other_player_witness :
  exists st' room',
    on_joinRoom bob (Some room1) true 2000%Z (after bob_named) =
      Normal st' [Ack bob (PRoom room');
                  SocketTo bob room1 "opponentJoined" (PRoom room')] /\
    JsMap.get room1 (rooms st') = Some room' /\
    (forall p, In p (players opened_room) ->
               still_open bob_named (socketId p) = true ->
               In (socketId p)
                  (recipients st'
                     (SocketTo bob room1 "opponentJoined" (PRoom room')))) /\
    ~ In bob (recipients st' (SocketTo bob room1 "opponentJoined" (PRoom room'))).
Proof.
  apply (@join_notice_reaches_the_other_player E bob_named bob room1 2000%Z
           (after bob_named) opened_room).
  - exact (after_reached bob_named ltac:(discriminate)).
  - reflexivity.
  - cbn. lia.
  - reflexivity.
Defined.

Lemma create_then_join_pairs_two_players_witness :
  exists st1 st2 room,
    on_createRoom alice true uuid1 1000%Z (initial (E := E)) =
      Normal st1 [Ack alice (PRoomId (generateRoomId uuid1))] /\
    on_joinRoom bob (Some (generateRoomId uuid1)) true 2000%Z st1 =
      Normal st2 [Ack bob (PRoom room);
                  SocketTo bob (generateRoomId uuid1) "opponentJoined" (PRoom room)] /\
    JsMap.get (generateRoomId uuid1) (rooms st2) = Some room /\
    players room = [mkPlayer alice (username_or_anonymous (initial (E := E)) alice)
                             white false;
                    mkPlayer bob (username_or_anonymous (initial (E := E)) bob)
                             black false] /\
    status room = status_ready /\
    JsMap.get (generateRoomId uuid1) (games st2) =
      Some (mkGame (newChess E) active white 0%N []).
Proof.
  apply (@create_then_join_pairs_two_players E alice bob uuid1 1000%Z 2000%Z initial).
  discriminate.
Defined.

(** A sweep thirty minutes and one millisecond after Bob joined. *)
Lemma sweep_removes_exactly_inactive_witness :
  (forall r,
      JsMap.get r (rooms (sweep 1802001%Z (after paired))) =
        match JsMap.get r (rooms (after paired)) with
        | Some room => if inactive 1802001%Z room then None else Some room
        | None => None
        end /\
      JsMap.get r (games (sweep 1802001%Z (after paired))) =
        match JsMap.get r (rooms (after paired)) with
        | Some room => if inactive 1802001%Z room then None
                       else JsMap.get r (games (after paired))
        | None => JsMap.get r (games (after paired))
        end) /\
  socketData (sweep 1802001%Z (after paired)) = socketData (after paired) /\
  joined (sweep 1802001%Z (after paired)) = joined (after paired).
Proof.
  apply (@sweep_removes_exactly_inactive E 1802001%Z (after paired)).
  apply after_reachable. discriminate.
Defined.

(** Carol, who is in no room, disconnects. *)
Lemma disconnect_of_stranger_changes_nothing_witness :
  on_disconnect carol 9000%Z (after paired) = Normal (after paired) [].
Proof.
  apply (@disconnect_of_stranger_changes_nothing E carol 9000%Z (after paired)).
  intros r room [Hin|[]]. inversion Hin; subst. cbn.
  intros [H|[H|[]]]; discriminate H.
Defined.

(** Alice leaves the room she shares with Bob. *)
Lemma disconnect_keeps_room_for_other_player_witness :
  exists st' p room',
    on_disconnect alice 9000%Z (after paired) =
      Normal st' [SocketTo alice room1 "playerDisconnected"
                           (PPlayerDisconnected p 1)] /\
    socketId p = alice /\
    In p (players paired_room) /\
    JsMap.get room1 (rooms st') = Some room' /\
    List.length (players room') = 1 /\
    ~ In alice (map socketId (players room')) /\
    (forall q, In q (players paired_room) -> q = p \/ In q (players room')) /\
    lastActivity room' = 9000%Z /\
    games st' = games (after paired) /\
    (forall r', r' <> room1 ->
                JsMap.get r' (rooms st') = JsMap.get r' (rooms (after paired))).
Proof.
  apply (@disconnect_keeps_room_for_other_player E alice 9000%Z (after paired)
           room1 paired_room 0).
  - apply after_reachable. discriminate.
  - reflexivity.
  - cbn. lia.
Defined.

Lemma cleanupRoom_idle_between_events_witness :
  cleanupRoom room1 (after paired) = after paired.
Proof.
  apply (@cleanupRoom_idle_between_events E (after paired) room1).
  apply after_reachable. discriminate.
Defined.

Lemma move_touches_only_its_room_witness :
  socketData (after started) = socketData (after paired) /\
  joined (after started) = joined (after paired) /\
  (forall r, r <> room1 ->
             JsMap.get r (rooms (after started)) = JsMap.get r (rooms (after paired)) /\
             JsMap.get r (games (after started)) = JsMap.get r (games (after paired))) /\
  (forall room, JsMap.get room1 (rooms (after paired)) = Some room ->
                exists room',
                  JsMap.get room1 (rooms (after started)) = Some room' /\
                  roomId room' = roomId room /\
                  players room' = players room /\
                  status room' = status room /\
                  created room' = created room).
Proof.
  eapply (@move_touches_only_its_room E alice (move_of room1 "e4") 3000%Z
            (after paired) (after started)).
  reflexivity.
Defined.

Lemma game_update_reports_stored_game_witness :
  "gameUpdate" = "gameUpdate" /\
  exists game,
    JsMap.get room1 (games (after started)) = Some game /\
    u_fen (mkUpdate (E := E) "e4" black 1%N None (Some "e4")) = fen E (chess game) /\
    u_currentTurn (mkUpdate (E := E) "e4" black 1%N None (Some "e4"))
      = currentTurn game /\
    u_moveCount (mkUpdate (E := E) "e4" black 1%N None (Some "e4")) = moveCount game.
Proof.
  eapply (@game_update_reports_stored_game E
            (Move alice (move_in room1 "e4") 3000%Z) (after paired) (after started)).
  - reflexivity.
  - right. left. reflexivity.
Defined.

Lemma api_rooms_lists_registry_witness :
  snd (api_rooms (after two_rooms)) = activeRooms (after two_rooms) /\
  NoDup (map s_roomId (fst (api_rooms (after two_rooms)))) /\
  (forall x, In x (fst (api_rooms (after two_rooms))) <->
             exists room, JsMap.get (s_roomId x) (rooms (after two_rooms)) = Some room /\
                          x = summary_of room) /\
  (forall x, In x (fst (api_rooms (after two_rooms))) -> 1 <= s_playerCount x <= 2).
Proof.
  apply (@api_rooms_lists_registry E (after two_rooms)).
  apply after_reachable. discriminate.
Defined.



(** The room Alice left behind: she is still listed beside Bob, her
    connection is closed, and Bob's move is addressed to nobody but Bob. *)
Lemma move_after_disconnect_reaches_only_open_connections :
  reached left_behind (after left_behind) /\
  still_open left_behind alice = false /\
  still_open left_behind bob = true /\
  option_map players (JsMap.get room2 (rooms (after left_behind)))
    = Some [player_alice; player_bob] /\
  exists st' raw update,
    on_move bob (move_in room2 "e5") 5000%Z (after left_behind)
      = Normal st' [raw; update] /\
    recipients st' raw = [] /\
    recipients st' update = [bob].
Proof.
  split; [exact (after_reached left_behind ltac:(discriminate))|].
  split; [reflexivity|]. split; [reflexivity|]. split; [reflexivity|].
  eexists _, _, _. split; [reflexivity|]. split; reflexivity.
Qed.
